(** * Energy bin grouping of gammapy.spectrum.energy_group

    A shallow embedding of [SpectrumEnergyGroup], [SpectrumEnergyGroups] and
    [SpectrumEnergyGroupMaker].

    Conventions of the embedding:
    - an astropy [Quantity] with an energy unit is the exact number of MeV it
      denotes (an integer); comparison of two quantities is comparison of
      these numbers, so [1 TeV = 1000000 MeV].  Rounding of the float
      arithmetic behind a [Quantity] is not part of the model;
    - a Python exception is a value of [exn]; code that may raise returns a
      [result];
    - an astropy [Table] is the list of its rows. *)

From Stdlib Require Import ZArith List String Bool Lia Sorted Permutation.
Import ListNotations.
Open Scope string_scope.
Open Scope list_scope.
Open Scope Z_scope.

(** ** Exceptions *)

Inductive exn : Type :=
| ValueError (msg : string)
| IndexError (msg : string)
| KeyError (key : string)
| TypeError (msg : string).

Inductive result (A : Type) : Type :=
| Ok (a : A)
| Raise (e : exn).

Arguments Ok {A} a.
Arguments Raise {A} e.

Definition bind {A B : Type} (c : result A) (k : A -> result B) : result B :=
  match c with
  | Ok a => k a
  | Raise e => Raise e
  end.

Notation "x <- c ;; k" := (bind c (fun x => k))
  (at level 61, c at next level, right associativity).

(** A [for] loop whose body may raise and that collects one value per
    iteration (a list comprehension, or [append] in the loop body). *)
Fixpoint for_each {A B : Type} (f : A -> result B) (l : list A) : result (list B) :=
  match l with
  | [] => Ok []
  | x :: l' =>
      y <- f x ;;
      ys <- for_each f l' ;;
      Ok (y :: ys)
  end.

(** ** Quantities *)

Definition Quantity : Type := Z.

Definition MeV : Quantity := 1.
Definition TeV : Quantity := 1000000.

(** ** The part of numpy that the module uses *)

Module np.

(** [np.arange(start, stop)] *)
Definition arange (start stop : Z) : list Z :=
  map (fun k => start + Z.of_nat k) (seq 0 (Z.to_nat (stop - start))).

Definition sign (x : Z) : Z := Z.sgn x.

(** Position of the first occurrence of the minimum: [best_i] is the
    position of the minimum [best] seen so far, [i] the position of the
    head of [l]. *)
Fixpoint argmin_from (best_i best i : Z) (l : list Z) : Z :=
  match l with
  | [] => best_i
  | x :: l' =>
      if x <? best then argmin_from i x (i + 1) l'
      else argmin_from best_i best (i + 1) l'
  end.

Definition argmin (l : list Z) : result Z :=
  match l with
  | [] => Raise (ValueError "attempt to get argmin of an empty sequence")
  | x :: l' => Ok (argmin_from 0 x 1 l')
  end.

(** [np.argmin(m, axis=1)] of a matrix with [ncols] columns. *)
Definition argmin_axis1 (ncols : nat) (m : list (list Z)) : result (list Z) :=
  match ncols with
  | O => Raise (ValueError "attempt to get argmin of an empty sequence")
  | _ => for_each argmin m
  end.

(** [np.unique]: the sorted distinct values. *)
Fixpoint insert (x : Z) (l : list Z) : list Z :=
  match l with
  | [] => [x]
  | y :: l' =>
      if x <? y then x :: y :: l'
      else if x =? y then y :: l'
      else y :: insert x l'
  end.

Definition unique (l : list Z) : list Z := fold_right insert [] l.

(** Indexing [a[i]] of a one-dimensional array or table column: a negative
    index counts from the end, an index out of range raises. *)
Definition getitem {A : Type} (a : list A) (i : Z) : result A :=
  let n := Z.of_nat (List.length a) in
  let j := if i <? 0 then i + n else i in
  if (0 <=? j) && (j <? n) then
    match nth_error a (Z.to_nat j) with
    | Some x => Ok x
    | None => Raise (IndexError "index out of bounds")
    end
  else Raise (IndexError "index out of bounds").

(** Assignment [a[i] = v], same index rule. *)
Fixpoint update {A : Type} (a : list A) (k : nat) (v : A) : list A :=
  match a, k with
  | [], _ => []
  | _ :: a', O => v :: a'
  | x :: a', S k' => x :: update a' k' v
  end.

Definition setitem {A : Type} (a : list A) (i : Z) (v : A) : result (list A) :=
  let n := Z.of_nat (List.length a) in
  let j := if i <? 0 then i + n else i in
  if (0 <=? j) && (j <? n) then Ok (update a (Z.to_nat j) v)
  else Raise (IndexError "index out of bounds").

End np.

(** [x in l] for a list of strings. *)
Definition str_in (x : string) (l : list string) : bool :=
  existsb (String.eqb x) l.

(** [set(l)], kept as the list of the distinct elements. *)
Definition py_set (l : list string) : list string := nodup string_dec l.

(** ** SpectrumEnergyGroup *)

Record SpectrumEnergyGroup : Type := mkSpectrumEnergyGroup {
  energy_group_idx : Z;
  bin_idx_min : Z;
  bin_idx_max : Z;
  bin_type : string;
  energy_min : Quantity;
  energy_max : Quantity
}.

Definition valid_bin_types : list string := ["normal"; "underflow"; "overflow"].

(** [SpectrumEnergyGroup.__init__].  [Quantity(q)] of a quantity is that
    quantity. *)
Definition init (energy_group_idx bin_idx_min bin_idx_max : Z) (bin_type : string)
    (energy_min energy_max : Quantity) : result SpectrumEnergyGroup :=
  if negb (str_in bin_type valid_bin_types) then
    Raise (ValueError ("Invalid bin type: " ++ bin_type)%string)
  else
    Ok (mkSpectrumEnergyGroup energy_group_idx bin_idx_min bin_idx_max bin_type
          energy_min energy_max).

(** Values a data member can hold, and the dictionaries of [to_dict]. *)
Inductive value : Type :=
| VInt (z : Z)
| VStr (s : string)
| VQuantity (q : Quantity).

Definition OrderedDict : Type := list (string * value).

Definition fields : list string :=
  ["energy_group_idx"; "bin_idx_min"; "bin_idx_max";
   "bin_type"; "energy_min"; "energy_max"].

(** [getattr(self, name)]; only called with the names of [fields]. *)
Definition getattr (g : SpectrumEnergyGroup) (name : string) : value :=
  if (name =? "energy_group_idx")%string then VInt (energy_group_idx g)
  else if (name =? "bin_idx_min")%string then VInt (bin_idx_min g)
  else if (name =? "bin_idx_max")%string then VInt (bin_idx_max g)
  else if (name =? "bin_type")%string then VStr (bin_type g)
  else if (name =? "energy_min")%string then VQuantity (energy_min g)
  else VQuantity (energy_max g).

Definition _data (g : SpectrumEnergyGroup) : list (string * value) :=
  map (fun f => (f, getattr g f)) fields.

Definition to_dict (g : SpectrumEnergyGroup) : OrderedDict := _data g.

(** [data[key]] *)
Fixpoint dict_get (data : OrderedDict) (key : string) : result value :=
  match data with
  | [] => Raise (KeyError key)
  | (k, v) :: data' => if (k =? key)%string then Ok v else dict_get data' key
  end.

Definition as_int (v : value) : result Z :=
  match v with
  | VInt z => Ok z
  | _ => Raise (TypeError "not an integer")
  end.

Definition as_str (v : value) : result string :=
  match v with
  | VStr s => Ok s
  | _ => Raise (TypeError "not a string")
  end.

Definition as_quantity (v : value) : result Quantity :=
  match v with
  | VQuantity q => Ok q
  | _ => Raise (TypeError "not a quantity")
  end.

(** [SpectrumEnergyGroup.from_dict]: the six entries named by [fields] are
    looked up in [data] and passed to the constructor by keyword.  The
    record is typed, so an entry of another kind than its field is refused
    here. *)
Definition from_dict (data : OrderedDict) : result SpectrumEnergyGroup :=
  data' <- for_each (fun f => v <- dict_get data f ;; Ok (f, v)) fields ;;
  v1 <- dict_get data' "energy_group_idx" ;; a1 <- as_int v1 ;;
  v2 <- dict_get data' "bin_idx_min" ;; a2 <- as_int v2 ;;
  v3 <- dict_get data' "bin_idx_max" ;; a3 <- as_int v3 ;;
  v4 <- dict_get data' "bin_type" ;; a4 <- as_str v4 ;;
  v5 <- dict_get data' "energy_min" ;; a5 <- as_quantity v5 ;;
  v6 <- dict_get data' "energy_max" ;; a6 <- as_quantity v6 ;;
  init a1 a2 a3 a4 a5 a6.

Definition value_eq_dec (v w : value) : {v = w} + {v <> w}.
Proof.
  decide equality; first [apply Z.eq_dec | apply string_dec].
Defined.

Definition item_eq_dec (p q : string * value) : {p = q} + {p <> q}.
Proof.
  decide equality; first [apply value_eq_dec | apply string_dec].
Defined.

(** [SpectrumEnergyGroup.__eq__]: equality of the two dictionaries. *)
Definition eq_group (g other : SpectrumEnergyGroup) : bool :=
  if list_eq_dec item_eq_dec (to_dict g) (to_dict other) then true else false.

(** [bin_idx_array]: [np.arange(bin_idx_min, bin_idx_max + 1)] *)
Definition bin_idx_array (g : SpectrumEnergyGroup) : list Z :=
  np.arange (bin_idx_min g) (bin_idx_max g + 1).

(** [contains_energy] *)
Definition contains_energy (g : SpectrumEnergyGroup) (energy : Quantity) : bool :=
  (energy_min g <=? energy) && (energy <? energy_max g).

(** ** Tables *)

(** A row of the table with one energy bin per row; its columns are
    [bin_idx], [energy_group_idx], [bin_type], [energy_min], [energy_max]. *)
Record Row : Type := mkRow {
  row_bin_idx : Z;
  row_energy_group_idx : Z;
  row_bin_type : string;
  row_energy_min : Quantity;
  row_energy_max : Quantity
}.

Definition Table : Type := list Row.

(** [Table()] filled column by column: the columns must have one length. *)
Fixpoint Table_from_columns (bin_idx energy_group_idx : list Z)
    (bin_type : list string) (energy_min energy_max : list Quantity)
    : result Table :=
  match bin_idx, energy_group_idx, bin_type, energy_min, energy_max with
  | [], [], [], [], [] => Ok []
  | b :: bs, i :: is_, t :: ts, lo :: los, hi :: his =>
      rows <- Table_from_columns bs is_ ts los his ;;
      Ok (mkRow b i t lo hi :: rows)
  | _, _, _, _, _ => Raise (ValueError "Inconsistent data column lengths")
  end.

(** [astropy.table.vstack]: the rows of the tables one after the other; an
    empty list of tables is refused. *)
Definition table_vstack (tables : list Table) : result Table :=
  match tables with
  | [] => Raise (TypeError "`tables` arg must be a Table or sequence of Tables or Rows")
  | _ => Ok (List.concat tables)
  end.

(** [SpectrumEnergyGroup.bin_table]: one row per bin index of the group, the
    scalar members repeated in every row. *)
Definition bin_table (g : SpectrumEnergyGroup) : Table :=
  map (fun i => mkRow i (energy_group_idx g) (bin_type g) (energy_min g) (energy_max g))
      (bin_idx_array g).

(** Modelled from the spec: [table_from_row_data] and [table_row_to_dict] of
    gammapy.utils.table, which are not among the sources.  The spec gives the
    group table as "tabular group descriptions with columns energy_group_idx,
    bin_idx_min, bin_idx_max, bin_type, energy_min, energy_max" and the
    conversion "(group->rows, rows->group)" as lossless: the table made from
    row data has one row per dictionary, in order, holding the entries of
    that dictionary under their keys; a row read back is the dictionary of
    its entries. *)
Definition GroupTable : Type := list OrderedDict.

Definition table_from_row_data (rows : list OrderedDict) : GroupTable := rows.

Definition table_row_to_dict (row : OrderedDict) : OrderedDict := row.

(** ** SpectrumEnergyGroups *)

Definition SpectrumEnergyGroups : Type := list SpectrumEnergyGroup.

(** [table[table['energy_group_idx'] == energy_group_idx]] *)
Definition select (table : Table) (idx : Z) : Table :=
  filter (fun r => row_energy_group_idx r =? idx) table.

(** The body of the loop of [from_total_table]. *)
Definition group_of_rows (table : Table) (energy_group_idx : Z)
    : result SpectrumEnergyGroup :=
  let group_table := select table energy_group_idx in
  bin_idx_min <- np.getitem (map row_bin_idx group_table) 0 ;;
  bin_idx_max <- np.getitem (map row_bin_idx group_table) (-1) ;;
  if (1 <? Z.of_nat (List.length (py_set (map row_bin_type group_table)))) then
    Raise (ValueError "Inconsistent bin_type within group.")
  else
    bin_type <- np.getitem (map row_bin_type group_table) 0 ;;
    energy_min <- np.getitem (map row_energy_min group_table) 0 ;;
    energy_max <- np.getitem (map row_energy_max group_table) (-1) ;;
    init energy_group_idx bin_idx_min bin_idx_max bin_type energy_min energy_max.

Definition from_total_table (table : Table) : result SpectrumEnergyGroups :=
  for_each (group_of_rows table) (np.unique (map row_energy_group_idx table)).

Definition from_group_table (table : GroupTable) : result SpectrumEnergyGroups :=
  for_each (fun row => from_dict (table_row_to_dict row)) table.

Definition to_total_table (groups : SpectrumEnergyGroups) : result Table :=
  table_vstack (map bin_table groups).

Definition to_group_table (groups : SpectrumEnergyGroups) : GroupTable :=
  table_from_row_data (map to_dict groups).

(** [find_list_idx]: [idx] is the position of the head of [groups] in the
    enumeration.  The message of the source ends with the energy that was
    looked up; the message here is its fixed part. *)
Fixpoint find_from (idx : nat) (groups : SpectrumEnergyGroups) (energy : Quantity)
    : result nat :=
  match groups with
  | [] => Raise (IndexError "No group found with energy")
  | group :: groups' =>
      if contains_energy group energy then Ok idx
      else find_from (S idx) groups' energy
  end.

Definition find_list_idx (groups : SpectrumEnergyGroups) (energy : Quantity)
    : result nat :=
  find_from 0 groups energy.

(** ** SpectrumEnergyGroupMaker *)

(** Modelled from the spec: the classes [EnergyBounds] and
    [SpectrumObservation], which are not among the sources.  The spec gives
    the input of the grouping as the "spectral observation binning
    (lower/upper bin edges with physical units)": [lower_bounds] and
    [upper_bounds] hold the lower and the upper edge of every bin, [nbins] is
    the number of bins, [e_reco] is the binning of the observation. *)
Record EnergyBounds : Type := mkEnergyBounds {
  lower_bounds : list Quantity;
  upper_bounds : list Quantity
}.

Definition nbins (e : EnergyBounds) : Z := Z.of_nat (List.length (lower_bounds e)).

Record SpectrumObservation : Type := mkSpectrumObservation {
  e_reco : EnergyBounds
}.

Definition groups_from_obs (obs : SpectrumObservation) : result SpectrumEnergyGroups :=
  let ebounds_obs := e_reco obs in
  let size := nbins ebounds_obs in
  table <- Table_from_columns
             (np.arange 0 size)
             (np.arange 0 size)
             (repeat "normal" (Z.to_nat size))
             (lower_bounds ebounds_obs)
             (upper_bounds ebounds_obs) ;;
  from_total_table table.

(** The loop that creates the normal groups; the state of the loop is the
    list [groups] and the counter [energy_group_idx]. *)
Fixpoint normal_groups (ebounds_obs : EnergyBounds) (lower_indices : list Z)
    (indices : list Z) (groups : list SpectrumEnergyGroup) (energy_group_idx : Z)
    : result (list SpectrumEnergyGroup * Z) :=
  match indices with
  | [] => Ok (groups, energy_group_idx)
  | index :: indices' =>
      lo <- np.getitem lower_indices index ;;
      hi <- np.getitem lower_indices (index + 1) ;;
      e_min <- np.getitem (lower_bounds ebounds_obs) lo ;;
      e_max <- np.getitem (upper_bounds ebounds_obs) (hi - 1) ;;
      group <- init energy_group_idx lo (hi - 1) "normal" e_min e_max ;;
      normal_groups ebounds_obs lower_indices indices'
        (groups ++ [group]) (energy_group_idx + 1)
  end.

Definition compute_groups_fixed (obs : SpectrumObservation) (ebounds : list Quantity)
    : result SpectrumEnergyGroups :=
  let ebounds_obs := e_reco obs in
  let groups := [] in
  let energy_binning_offset := map (fun e => e - 1 * MeV) ebounds in
  let diff :=
    map (fun e => map (fun lo => e - lo) (lower_bounds ebounds_obs))
        energy_binning_offset in
  lower_indices <- np.argmin_axis1 (List.length (lower_bounds ebounds_obs))
                     (map (map np.sign) diff) ;;
  last <- np.getitem lower_indices (-1) ;;
  lower_indices <- (if last =? 0
                    then np.setitem lower_indices (-1) (nbins ebounds_obs)
                    else Ok lower_indices) ;;
  let energy_group_idx := 0 in
  first <- np.getitem lower_indices 0 ;;
  st <- (if first >? 0 then
           e_min <- np.getitem (lower_bounds ebounds_obs) 0 ;;
           e_max <- np.getitem (upper_bounds ebounds_obs) (first - 1) ;;
           group <- init energy_group_idx 0 (first - 1) "underflow" e_min e_max ;;
           Ok (groups ++ [group], energy_group_idx + 1)
         else Ok (groups, energy_group_idx)) ;;
  st <- normal_groups ebounds_obs lower_indices
          (np.arange 0 (Z.of_nat (List.length ebounds) - 1)) (fst st) (snd st) ;;
  let groups := fst st in
  let energy_group_idx := snd st in
  maxbin <- np.getitem lower_indices (-1) ;;
  if maxbin <? nbins ebounds_obs then
    e_min <- np.getitem (lower_bounds ebounds_obs) maxbin ;;
    e_max <- np.getitem (upper_bounds ebounds_obs) (-1) ;;
    group <- init energy_group_idx maxbin (nbins ebounds_obs - 1) "overflow" e_min e_max ;;
    Ok (groups ++ [group])
  else Ok groups.

(** The observation of the tests: 9 bins of width 1 TeV from 1 to 10 TeV. *)
Definition obs_1_10 : SpectrumObservation :=
  mkSpectrumObservation
    (mkEnergyBounds (map (fun k => k * TeV) (np.arange 1 10))
                    (map (fun k => k * TeV) (np.arange 2 11))).

(** ** Data of the tests *)

(** The groups of the tests of [SpectrumEnergyGroups]. *)
Definition test_groups : SpectrumEnergyGroups :=
  [ mkSpectrumEnergyGroup 0 10 20 "normal" (100 * TeV) (210 * TeV);
    mkSpectrumEnergyGroup 1 21 25 "normal" (210 * TeV) (260 * TeV);
    mkSpectrumEnergyGroup 5 26 26 "normal" (260 * TeV) (270 * TeV);
    mkSpectrumEnergyGroup 6 27 30 "normal" (270 * TeV) (300 * TeV) ].

(** A table with row order 2, 0, 1, 0 of the group indices. *)
Definition table_unordered : Table :=
  [ mkRow 7 2 "overflow" (7 * TeV) (8 * TeV);
    mkRow 3 0 "underflow" (3 * TeV) (4 * TeV);
    mkRow 5 1 "normal" (5 * TeV) (6 * TeV);
    mkRow 4 0 "underflow" (4 * TeV) (5 * TeV) ].

(** The same rows, the last one with another bin type than its group. *)
Definition table_inconsistent : Table :=
  [ mkRow 7 2 "overflow" (7 * TeV) (8 * TeV);
    mkRow 3 0 "underflow" (3 * TeV) (4 * TeV);
    mkRow 5 1 "normal" (5 * TeV) (6 * TeV);
    mkRow 4 0 "normal" (4 * TeV) (5 * TeV) ].

(** One group per bin: bin [k] and the following ones, with their edges. *)
Fixpoint one_per_bin (k : Z) (los his : list Quantity) : SpectrumEnergyGroups :=
  match los, his with
  | lo :: los', hi :: his' =>
      mkSpectrumEnergyGroup k k k "normal" lo hi :: one_per_bin (k + 1) los' his'
  | _, _ => []
  end.

(** ** Predicates used in the statements *)

(** The bin type is one of the three the constructor accepts. *)
Definition valid_bin_type (g : SpectrumEnergyGroup) : Prop :=
  In (bin_type g) valid_bin_types.

(** The invariant of a group: an accepted bin type, a bin range that is not
    empty and an energy interval that is not empty. *)
Definition valid_group (g : SpectrumEnergyGroup) : Prop :=
  valid_bin_type g /\ bin_idx_min g <= bin_idx_max g /\ energy_min g < energy_max g.

(** The group indices grow strictly along the list. *)
Definition ascending_idx (groups : SpectrumEnergyGroups) : Prop :=
  StronglySorted Z.lt (map energy_group_idx groups).

(** Two rows of one group that differ in bin type. *)
Definition inconsistent_bin_type (table : Table) : Prop :=
  exists r1 r2, In r1 table /\ In r2 table /\
    row_energy_group_idx r1 = row_energy_group_idx r2 /\
    row_bin_type r1 <> row_bin_type r2.

Definition msg_inconsistent : string := "Inconsistent bin_type within group.".
Definition msg_no_group : string := "No group found with energy".

(** ** Further members of SpectrumEnergyGroups *)

(** [energy_range]: [Quantity([self[0].energy_min, self[-1].energy_max])];
    the list of groups is indexed with the rule of [np.getitem]. *)
Definition energy_range (groups : SpectrumEnergyGroups) : result (list Quantity) :=
  first <- np.getitem groups 0 ;;
  last <- np.getitem groups (-1) ;;
  Ok [energy_min first; energy_max last].

(** [energy_bounds]: the [energy_min] of every group, then the [energy_max]
    of the last one. *)
Definition energy_bounds (groups : SpectrumEnergyGroups) : result (list Quantity) :=
  let energy := map energy_min groups in
  last <- np.getitem groups (-1) ;;
  Ok (energy ++ [energy_max last]).

(** ** Further predicates used in the statements *)

(** Every group ends at the energy at which the next one starts. *)
Fixpoint contiguous_energy (groups : SpectrumEnergyGroups) : Prop :=
  match groups with
  | g1 :: rest =>
      match rest with
      | g2 :: _ => energy_max g1 = energy_min g2
      | [] => True
      end /\ contiguous_energy rest
  | [] => True
  end.

(** The groups are numbered [idx], [idx + 1], ... and are chained by their
    bin indices: the first group has [bin_idx_min] equal to [bin], every
    next group has [bin_idx_min] equal to [bin_idx_max + 1] of the group
    before it, and [bin_idx_max + 1] of the last group is [stop].  Nothing
    is said about [bin_idx_min <= bin_idx_max] within a group. *)
Fixpoint chained (bin idx : Z) (groups : SpectrumEnergyGroups) (stop : Z) : Prop :=
  match groups with
  | [] => bin = stop
  | g :: rest =>
      bin_idx_min g = bin /\ energy_group_idx g = idx
      /\ chained (bin_idx_max g + 1) (idx + 1) rest stop
  end.

(** The energies of a group are the lower edge of its first bin and the
    upper edge of its last bin, both looked up with the index rule of
    arrays. *)
Definition edges_of_bins (e : EnergyBounds) (g : SpectrumEnergyGroup) : Prop :=
  np.getitem (lower_bounds e) (bin_idx_min g) = Ok (energy_min g)
  /\ np.getitem (upper_bounds e) (bin_idx_max g) = Ok (energy_max g).

(** Position, counted from [i], of the first element of [l] that satisfies
    [p]. *)
Fixpoint find_first (p : Z -> bool) (l : list Z) (i : Z) : option Z :=
  match l with
  | [] => None
  | x :: l' => if p x then Some i else find_first p l' (i + 1)
  end.

(** The bin that a boundary [e] is located at: the first bin whose lower
    edge lies above [e - 1 MeV]; when there is none, the first bin whose
    lower edge is [e - 1 MeV]; and bin 0 when there is none either. *)
Definition located (lower : list Quantity) (e : Quantity) : Z :=
  match find_first (fun lo => e - 1 * MeV <? lo) lower 0 with
  | Some i => i
  | None =>
      match find_first (fun lo => lo =? e - 1 * MeV) lower 0 with
      | Some i => i
      | None => 0
      end
  end.

(** The bins of the observation follow one another: every bin ends at the
    energy at which the next one starts. *)
Definition contiguous_bins (e : EnergyBounds) : Prop :=
  forall i lo hi,
    nth_error (upper_bounds e) i = Some hi ->
    nth_error (lower_bounds e) (S i) = Some lo ->
    hi = lo.





(** The key is not among the keys of the dictionary. *)
Definition missing (data : OrderedDict) (key : string) : Prop :=
  ~ In key (map fst data).

(** * Properties *)

(** ** The error monad and the helpers *)

Lemma bind_Ok {A B : Type} (c : result A) (k : A -> result B) (b : B) :
  bind c k = Ok b <-> exists a, c = Ok a /\ k a = Ok b.
Proof.
  destruct c as [a | e]; simpl; split.
  - intros H. exists a. split; [reflexivity | exact H].
  - intros [a' [Ha Hk]]. inversion Ha. subst. exact Hk.
  - discriminate.
  - intros [a' [Ha _]]. discriminate.
Qed.

Lemma str_in_In (x : string) (l : list string) :
  str_in x l = true <-> In x l.
Proof.
  unfold str_in. rewrite existsb_exists. split.
  - intros [y [Hy Heq]]. apply String.eqb_eq in Heq. subst. exact Hy.
  - intros H. exists x. split; [exact H | apply String.eqb_refl].
Qed.

Lemma init_valid idx bmin bmax bt emin emax :
  In bt valid_bin_types ->
  init idx bmin bmax bt emin emax = Ok (mkSpectrumEnergyGroup idx bmin bmax bt emin emax).
Proof.
  intros H. unfold init. apply str_in_In in H. rewrite H. reflexivity.
Qed.

Lemma init_invalid idx bmin bmax bt emin emax :
  ~ In bt valid_bin_types ->
  init idx bmin bmax bt emin emax = Raise (ValueError ("Invalid bin type: " ++ bt)%string).
Proof.
  intros H. unfold init.
  destruct (str_in bt valid_bin_types) eqn:E; [|reflexivity].
  apply str_in_In in E. contradiction.
Qed.

(** ** SpectrumEnergyGroup *)

(** C6: the constructor raises [ValueError] for every bin type outside
    [valid_bin_types]; for every bin type of that list it returns a group
    whose six members are the six arguments. *)
Theorem init_validates_bin_type (idx bmin bmax : Z) (bt : string) (emin emax : Quantity) :
  (~ In bt ["normal"; "underflow"; "overflow"] ->
     init idx bmin bmax bt emin emax
     = Raise (ValueError ("Invalid bin type: " ++ bt)%string))
  /\ (In bt ["normal"; "underflow"; "overflow"] ->
        exists g, init idx bmin bmax bt emin emax = Ok g
          /\ energy_group_idx g = idx /\ bin_idx_min g = bmin /\ bin_idx_max g = bmax
          /\ bin_type g = bt /\ energy_min g = emin /\ energy_max g = emax).
Proof.
  split.
  - apply init_invalid.
  - intros H. eexists. split; [apply init_valid; exact H|].
    simpl. repeat split.
Qed.

Lemma init_validates_bin_type_witness :
  init 3 10 20 "spam" (100 * TeV) (200 * TeV) = Raise (ValueError "Invalid bin type: spam")
  /\ exists g, init 3 10 20 "normal" (100 * TeV) (200 * TeV) = Ok g
       /\ energy_group_idx g = 3 /\ bin_idx_min g = 10 /\ bin_idx_max g = 20
       /\ bin_type g = "normal" /\ energy_min g = 100 * TeV /\ energy_max g = 200 * TeV.
Proof.
  split.
  - apply (proj1 (init_validates_bin_type 3 10 20 "spam" (100 * TeV) (200 * TeV))).
    simpl. intros [H | [H | [H | []]]]; discriminate H.
  - apply (proj2 (init_validates_bin_type 3 10 20 "normal" (100 * TeV) (200 * TeV))).
    simpl. left. reflexivity.
Defined.

(** C4: [contains_energy] is membership in the half-open interval
    [energy_min, energy_max): the lower end belongs to a non-empty interval,
    the upper end never does. *)
Theorem contains_energy_half_open (g : SpectrumEnergyGroup) (e : Quantity) :
  (contains_energy g e = true <-> energy_min g <= e /\ e < energy_max g)
  /\ (energy_min g < energy_max g -> contains_energy g (energy_min g) = true)
  /\ contains_energy g (energy_max g) = false.
Proof.
  unfold contains_energy. split; [|split].
  - rewrite andb_true_iff, Z.leb_le, Z.ltb_lt. tauto.
  - intros H. apply andb_true_iff. lia.
  - apply andb_false_iff. right. lia.
Qed.

Lemma contains_energy_half_open_witness :
  let g := mkSpectrumEnergyGroup 3 10 20 "normal" (100 * TeV) (200 * TeV) in
  contains_energy g (99 * TeV) = false
  /\ contains_energy g (100 * TeV) = true
  /\ contains_energy g (199 * TeV) = true
  /\ contains_energy g (200 * TeV) = false.
Proof.
  intros g.
  pose proof (contains_energy_half_open g (99 * TeV)) as [H99 _].
  pose proof (contains_energy_half_open g (199 * TeV)) as [H199 [Hlo Hhi]].
  split; [|split; [|split]].
  - apply not_true_is_false. intros E.
    apply H99 in E. simpl in E. unfold TeV in E. lia.
  - apply Hlo. simpl. unfold TeV. lia.
  - apply H199. simpl. unfold TeV. lia.
  - exact Hhi.
Defined.

(** ** SpectrumEnergyGroups.find_list_idx *)

Lemma find_from_Ok (gs : SpectrumEnergyGroups) (e : Quantity) :
  forall k i,
    find_from k gs e = Ok i <->
    exists j g, i = (k + j)%nat /\ nth_error gs j = Some g /\ contains_energy g e = true
      /\ forall j' g', (j' < j)%nat -> nth_error gs j' = Some g' -> contains_energy g' e = false.
Proof.
  induction gs as [| g0 gs IH]; intros k i; simpl.
  - split; [discriminate|].
    intros [j [g [_ [H _]]]]. destruct j; discriminate H.
  - destruct (contains_energy g0 e) eqn:E.
    + split.
      * intros H. inversion H. subst. exists 0%nat, g0.
        repeat split; [lia | assumption | intros; lia].
      * intros [j [g [Hi [Hn [Hc Hlt]]]]].
        destruct j as [| j].
        -- f_equal. lia.
        -- specialize (Hlt 0%nat g0 ltac:(lia) eq_refl). congruence.
    + rewrite IH. split.
      * intros [j [g [Hi [Hn [Hc Hlt]]]]]. exists (S j), g.
        repeat split; [lia | assumption | assumption |].
        intros [| j'] g' Hj Hn'; simpl in Hn'.
        -- inversion Hn'. subst. exact E.
        -- apply (Hlt j'); [lia | exact Hn'].
      * intros [j [g [Hi [Hn [Hc Hlt]]]]].
        destruct j as [| j]; simpl in Hn.
        -- inversion Hn. subst. congruence.
        -- exists j, g. repeat split; [lia | assumption | assumption |].
           intros j' g' Hj Hn'. apply (Hlt (S j')); [lia | exact Hn'].
Qed.

Lemma find_from_Raise (gs : SpectrumEnergyGroups) (e : Quantity) :
  forall k,
    find_from k gs e = Raise (IndexError msg_no_group) <->
    forall g, In g gs -> contains_energy g e = false.
Proof.
  induction gs as [| g0 gs IH]; intros k; simpl.
  - split; [intros _ g [] | reflexivity].
  - destruct (contains_energy g0 e) eqn:E.
    + split; [discriminate|].
      intros H. specialize (H g0 (or_introl eq_refl)). congruence.
    + rewrite IH. split.
      * intros H g [<- | Hin]; [exact E | apply H; exact Hin].
      * intros H g Hin. apply H. right. exact Hin.
Qed.

(** C5, as the code has it: [find_list_idx] returns the position of the
    first group of the list whose interval [energy_min, energy_max) contains
    the energy, and raises [IndexError] exactly when no group contains it.
    When no group starts below the first one, an energy below the first
    [energy_min] raises; when no group ends above the last one, an energy at
    or above the last [energy_max] raises. *)
Theorem find_list_idx_first_match (groups : SpectrumEnergyGroups) (e : Quantity) :
  (forall i, find_list_idx groups e = Ok i <->
     exists g, nth_error groups i = Some g /\ contains_energy g e = true
       /\ forall j g', (j < i)%nat -> nth_error groups j = Some g' ->
            contains_energy g' e = false)
  /\ (find_list_idx groups e = Raise (IndexError "No group found with energy") <->
      forall g, In g groups -> contains_energy g e = false)
  /\ (forall g0 rest, groups = g0 :: rest ->
        (forall g, In g groups -> energy_min g0 <= energy_min g) ->
        e < energy_min g0 ->
        find_list_idx groups e = Raise (IndexError "No group found with energy"))
  /\ (forall front gn, groups = front ++ [gn] ->
        (forall g, In g groups -> energy_max g <= energy_max gn) ->
        energy_max gn <= e ->
        find_list_idx groups e = Raise (IndexError "No group found with energy")).
Proof.
  unfold find_list_idx. repeat split.
  - intros H. apply find_from_Ok in H.
    destruct H as [j [g [Hi [Hn [Hc Hlt]]]]]. simpl in Hi. subst j.
    exists g. auto.
  - intros [g [Hn [Hc Hlt]]]. apply find_from_Ok. exists i, g. auto.
  - apply find_from_Raise.
  - apply find_from_Raise.
  - intros g0 rest Hgs Hmin He. apply find_from_Raise.
    intros g Hin. specialize (Hmin g Hin).
    unfold contains_energy. apply andb_false_iff. left. lia.
  - intros front gn Hgs Hmax He. apply find_from_Raise.
    intros g Hin. specialize (Hmax g Hin).
    unfold contains_energy. apply andb_false_iff. right. lia.
Qed.

Lemma find_list_idx_first_match_witness :
  find_list_idx test_groups (99 * TeV) = Raise (IndexError "No group found with energy")
  /\ find_list_idx test_groups (300 * TeV) = Raise (IndexError "No group found with energy")
  /\ find_list_idx test_groups (270 * TeV) = Ok 3%nat.
Proof.
  pose proof (find_list_idx_first_match test_groups (99 * TeV)) as [_ [_ [Hlo _]]].
  pose proof (find_list_idx_first_match test_groups (300 * TeV)) as [_ [_ [_ Hhi]]].
  pose proof (find_list_idx_first_match test_groups (270 * TeV)) as [Hok _].
  split; [|split].
  - eapply Hlo; [reflexivity | | vm_compute; reflexivity].
    intros g Hin. simpl in Hin.
    repeat (destruct Hin as [<- | Hin]; [vm_compute; discriminate|]). destruct Hin.
  - eapply (Hhi [_; _; _]); [reflexivity | | vm_compute; discriminate].
    intros g Hin. simpl in Hin.
    repeat (destruct Hin as [<- | Hin]; [vm_compute; discriminate|]). destruct Hin.
  - apply Hok. eexists. split; [reflexivity|]. split; [reflexivity|].
    intros j g' Hj Hn.
    destruct j as [| [| [| j]]]; simpl in Hn; try lia;
      inversion Hn; subst; reflexivity.
Defined.

(** C5 as stated fails on a list that is not in energy order: the energy is
    below the first group's [energy_min], and the second group is found. *)
Lemma find_list_idx_below_first_found :
  let groups := [ mkSpectrumEnergyGroup 0 5 9 "normal" (100 * TeV) (200 * TeV);
                  mkSpectrumEnergyGroup 1 0 4 "normal" (50 * TeV) (80 * TeV) ] in
  Forall valid_group groups
  /\ (exists g0, hd_error groups = Some g0 /\ 60 * TeV < energy_min g0)
  /\ find_list_idx groups (60 * TeV) = Ok 1%nat
  /\ find_list_idx groups (60 * TeV) <> Raise (IndexError "No group found with energy").
Proof.
  intros groups. split; [|split; [|split]].
  - repeat constructor; simpl; unfold TeV; lia.
  - eexists. split; [reflexivity | vm_compute; reflexivity].
  - reflexivity.
  - vm_compute. discriminate.
Qed.

(** ** SpectrumEnergyGroupMaker.compute_groups_fixed *)

(** The located boundaries of the two test inputs, before the last one is
    moved: the position of the first lower bin edge that is not below the
    boundary, or 0 when every edge is below it. *)
Example lower_indices_in_range :
  np.argmin_axis1 9
    (map (fun e => map (fun lo => np.sign (e - 1 * MeV - lo))
                     (lower_bounds (e_reco obs_1_10)))
         [1250000 * MeV; 4500000 * MeV; 6500000 * MeV])
  = Ok [1; 4; 6].
Proof. reflexivity. Qed.

Example lower_indices_out_of_range :
  np.argmin_axis1 9
    (map (fun e => map (fun lo => np.sign (e - 1 * MeV - lo))
                     (lower_bounds (e_reco obs_1_10)))
         [-1 * TeV; 6 * TeV; 100 * TeV])
  = Ok [0; 5; 0].
Proof. reflexivity. Qed.

(** C1: for the boundaries 1.25, 4.5 and 6.5 TeV over 9 bins of width 1 TeV
    from 1 to 10 TeV, the groups are, in order, the underflow group [0,0]
    with [1,2) TeV, the normal groups [1,3] with [2,5) TeV and [4,5] with
    [5,7) TeV, and the overflow group [6,8] with [7,10) TeV, numbered
    0, 1, 2, 3. *)
Theorem compute_groups_fixed_in_range :
  compute_groups_fixed obs_1_10 [1250000 * MeV; 4500000 * MeV; 6500000 * MeV]
  = Ok [ mkSpectrumEnergyGroup 0 0 0 "underflow" (1 * TeV) (2 * TeV);
         mkSpectrumEnergyGroup 1 1 3 "normal" (2 * TeV) (5 * TeV);
         mkSpectrumEnergyGroup 2 4 5 "normal" (5 * TeV) (7 * TeV);
         mkSpectrumEnergyGroup 3 6 8 "overflow" (7 * TeV) (10 * TeV) ].
Proof. vm_compute. reflexivity. Qed.

(** The second input of the test: boundaries on bin edges give the same
    groups. *)
Example compute_groups_fixed_on_edges :
  compute_groups_fixed obs_1_10 [2 * TeV; 5 * TeV; 7 * TeV]
  = compute_groups_fixed obs_1_10 [1250000 * MeV; 4500000 * MeV; 6500000 * MeV].
Proof. reflexivity. Qed.

(** C2: for the boundaries -1, 6 and 100 TeV over the same bins, the result
    is exactly two normal groups, [0,4] with [1,6) TeV and [5,8] with
    [6,10) TeV; there is no underflow and no overflow group. *)
Theorem compute_groups_fixed_out_of_bounds :
  compute_groups_fixed obs_1_10 [-1 * TeV; 6 * TeV; 100 * TeV]
  = Ok [ mkSpectrumEnergyGroup 0 0 4 "normal" (1 * TeV) (6 * TeV);
         mkSpectrumEnergyGroup 1 5 8 "normal" (6 * TeV) (10 * TeV) ].
Proof. vm_compute. reflexivity. Qed.

(** ** np.unique *)

Lemma insert_In (x y : Z) (l : list Z) :
  In y (np.insert x l) <-> y = x \/ In y l.
Proof.
  induction l as [| z l IH]; simpl.
  - intuition.
  - destruct (x <? z) eqn:Hlt; [simpl; intuition|].
    destruct (x =? z) eqn:Heq.
    + apply Z.eqb_eq in Heq. subst. simpl. intuition.
    + simpl. rewrite IH. intuition.
Qed.

Lemma unique_In (y : Z) (l : list Z) :
  In y (np.unique l) <-> In y l.
Proof.
  induction l as [| x l IH]; simpl; [reflexivity|].
  rewrite insert_In, IH. intuition.
Qed.

Lemma insert_sorted (x : Z) (l : list Z) :
  StronglySorted Z.lt l -> StronglySorted Z.lt (np.insert x l).
Proof.
  induction 1 as [| z l Hs IH Hall]; simpl.
  - repeat constructor.
  - destruct (x <? z) eqn:Hlt.
    + apply Z.ltb_lt in Hlt. constructor; [constructor; assumption|].
      constructor; [exact Hlt|].
      eapply Forall_impl; [|exact Hall]. intros; simpl in *; lia.
    + destruct (x =? z) eqn:Heq; [constructor; assumption|].
      apply Z.ltb_ge in Hlt. apply Z.eqb_neq in Heq.
      constructor; [exact IH|].
      apply Forall_forall. intros y Hy. apply insert_In in Hy.
      destruct Hy as [-> | Hy]; [lia|].
      rewrite Forall_forall in Hall. apply Hall. exact Hy.
Qed.

Lemma unique_sorted (l : list Z) : StronglySorted Z.lt (np.unique l).
Proof.
  induction l as [| x l IH]; simpl; [constructor | apply insert_sorted; exact IH].
Qed.

(** Two strictly sorted lists with the same elements are equal. *)
Lemma sorted_ext (l1 l2 : list Z) :
  StronglySorted Z.lt l1 -> StronglySorted Z.lt l2 ->
  (forall x, In x l1 <-> In x l2) -> l1 = l2.
Proof.
  intros H1. revert l2.
  induction H1 as [| a l1 Hs1 IH Ha]; intros l2 H2 Hext.
  - destruct l2 as [| b l2]; [reflexivity|].
    exfalso. apply (proj2 (Hext b)). left. reflexivity.
  - destruct H2 as [| b l2 Hs2 Hb].
    + exfalso. apply (proj1 (Hext a)). left. reflexivity.
    + rewrite Forall_forall in Ha, Hb.
      assert (a = b) as ->.
      { destruct (proj1 (Hext a) (or_introl eq_refl)) as [Hab | Hab]; [auto|].
        destruct (proj2 (Hext b) (or_introl eq_refl)) as [Hba | Hba]; [auto|].
        specialize (Ha _ Hba). specialize (Hb _ Hab). lia. }
      f_equal. apply IH; [exact Hs2|].
      intros x. split; intros Hx.
      * destruct (proj1 (Hext x) (or_intror Hx)) as [<- | Hx']; [|exact Hx'].
        specialize (Ha _ Hx). lia.
      * destruct (proj2 (Hext x) (or_intror Hx)) as [<- | Hx']; [|exact Hx'].
        specialize (Hb _ Hx). lia.
Qed.

Lemma unique_Permutation (l1 l2 : list Z) :
  Permutation l1 l2 -> np.unique l1 = np.unique l2.
Proof.
  intros HP. apply sorted_ext; try apply unique_sorted.
  intros x. rewrite !unique_In. split; apply Permutation_in; [|symmetry]; exact HP.
Qed.

(** ** Loops that may raise *)

Lemma for_each_Ok {A B : Type} (f : A -> result B) (l : list A) (ys : list B) :
  for_each f l = Ok ys -> Forall2 (fun x y => f x = Ok y) l ys.
Proof.
  revert ys. induction l as [| x l IH]; intros ys H; simpl in H.
  - inversion H. constructor.
  - apply bind_Ok in H. destruct H as [y [Hy H]].
    apply bind_Ok in H. destruct H as [ys' [Hys H]].
    inversion H. subst. constructor; [exact Hy | apply IH; exact Hys].
Qed.

Lemma for_each_map_Ok {A B : Type} (f : A -> result B) (h : B -> A) (ys : list B) :
  (forall y, In y ys -> f (h y) = Ok y) -> for_each f (map h ys) = Ok ys.
Proof.
  induction ys as [| y ys IH]; intros H; simpl; [reflexivity|].
  rewrite (H y (or_introl eq_refl)). simpl.
  rewrite IH; [reflexivity|]. intros y' Hy'. apply H. right. exact Hy'.
Qed.


Lemma for_each_fails {A B : Type} (f : A -> result B) (l : list A) (x : A) (e : exn) :
  In x l -> f x = Raise e -> exists e', for_each f l = Raise e'.
Proof.
  induction l as [| x0 l IH]; simpl; [intros []|].
  intros Hin Hx. destruct (f x0) as [y | e0] eqn:H0; simpl.
  - destruct Hin as [-> | Hin]; [congruence|].
    destruct (IH Hin Hx) as [e' He']. rewrite He'. simpl. exists e'. reflexivity.
  - exists e0. reflexivity.
Qed.

Lemma for_each_total {A B : Type} (f : A -> result B) (l : list A) :
  (forall x, In x l -> exists y, f x = Ok y) -> exists ys, for_each f l = Ok ys.
Proof.
  induction l as [| x l IH]; intros H; simpl.
  - exists []. reflexivity.
  - destruct (H x (or_introl eq_refl)) as [y Hy]. rewrite Hy. simpl.
    destruct IH as [ys Hys]; [intros x' Hx'; apply H; right; exact Hx'|].
    rewrite Hys. simpl. exists (y :: ys). reflexivity.
Qed.

(** ** Indexing *)

Lemma getitem_first {A : Type} (x : A) (l : list A) :
  np.getitem (x :: l) 0 = Ok x.
Proof.
  unfold np.getitem. cbv zeta. change (0 <? 0) with false. cbv iota.
  replace ((0 <=? 0) && (0 <? Z.of_nat (List.length (x :: l)))) with true.
  - reflexivity.
  - symmetry. apply andb_true_iff. rewrite Z.leb_le, Z.ltb_lt.
    simpl List.length. lia.
Qed.

Lemma getitem_last {A : Type} (front : list A) (y : A) :
  np.getitem (front ++ [y]) (-1) = Ok y.
Proof.
  unfold np.getitem. cbv zeta. change (-1 <? 0) with true. cbv iota.
  rewrite length_app. simpl List.length.
  replace (-1 + Z.of_nat (List.length front + 1)) with (Z.of_nat (List.length front)) by lia.
  replace ((0 <=? Z.of_nat (List.length front))
           && (Z.of_nat (List.length front) <? Z.of_nat (List.length front + 1))) with true.
  - rewrite Nat2Z.id, nth_error_app2 by lia. rewrite Nat.sub_diag. reflexivity.
  - symmetry. apply andb_true_iff. rewrite Z.leb_le, Z.ltb_lt. lia.
Qed.

Lemma getitem_map_first {A B : Type} (f : A -> B) (x : A) (l : list A) :
  np.getitem (map f (x :: l)) 0 = Ok (f x).
Proof. simpl. apply getitem_first. Qed.

Lemma getitem_map_last {A B : Type} (f : A -> B) (front : list A) (y : A) :
  np.getitem (map f (front ++ [y])) (-1) = Ok (f y).
Proof. rewrite map_app. simpl. apply getitem_last. Qed.

(** ** set *)

Lemma py_set_gt1 (l : list string) :
  (1 < Z.of_nat (List.length (py_set l))) <->
  exists x y, In x l /\ In y l /\ x <> y.
Proof.
  unfold py_set. split.
  - intros H.
    pose proof (NoDup_nodup string_dec l) as Hnd.
    destruct (nodup string_dec l) as [| a [| b rest]] eqn:E; simpl in H; try lia.
    exists a, b. repeat split.
    + apply (nodup_In string_dec). rewrite E. simpl. auto.
    + apply (nodup_In string_dec). rewrite E. simpl. auto.
    + inversion Hnd; subst. intros ->. apply H2. simpl. auto.
  - intros [x [y [Hx [Hy Hxy]]]].
    apply (nodup_In string_dec) in Hx, Hy.
    destruct (nodup string_dec l) as [| a [| b rest]]; simpl in *.
    + contradiction.
    + destruct Hx as [<- | []]. destruct Hy as [<- | []]. congruence.
    + lia.
Qed.

(** ** The loop body of from_total_table *)

Lemma select_In (table : Table) (idx : Z) (r : Row) :
  In r (select table idx) <-> In r table /\ row_energy_group_idx r = idx.
Proof.
  unfold select. rewrite filter_In, Z.eqb_eq. reflexivity.
Qed.

Lemma select_nonempty (table : Table) (idx : Z) :
  In idx (np.unique (map row_energy_group_idx table)) ->
  exists r rest, select table idx = r :: rest.
Proof.
  intros H. rewrite unique_In, in_map_iff in H.
  destruct H as [r [Hidx Hin]].
  destruct (select table idx) as [| r0 rest] eqn:E.
  - exfalso. assert (In r (select table idx)) as Hr by (apply select_In; auto).
    rewrite E in Hr. exact Hr.
  - exists r0, rest. reflexivity.
Qed.

Lemma group_of_rows_nonempty (table : Table) (idx : Z) (r : Row) (rest : list Row) :
  select table idx = r :: rest ->
  group_of_rows table idx =
    if 1 <? Z.of_nat (List.length (py_set (map row_bin_type (r :: rest))))
    then Raise (ValueError msg_inconsistent)
    else init idx (row_bin_idx r) (row_bin_idx (last (r :: rest) r)) (row_bin_type r)
           (row_energy_min r) (row_energy_max (last (r :: rest) r)).
Proof.
  intros E. unfold group_of_rows. rewrite E.
  rewrite getitem_map_first. cbn [bind].
  assert (r :: rest = removelast (r :: rest) ++ [last (r :: rest) r]) as Hl
    by (apply app_removelast_last; discriminate).
  set (y := last (r :: rest) r) in *.
  replace (np.getitem (map row_bin_idx (r :: rest)) (-1)) with (@Ok Z (row_bin_idx y))
    by (rewrite Hl at 1; rewrite getitem_map_last; reflexivity).
  cbn [bind].
  destruct (1 <? Z.of_nat (List.length (py_set (map row_bin_type (r :: rest)))));
    [reflexivity|].
  rewrite !getitem_map_first. cbn [bind].
  replace (np.getitem (map row_energy_max (r :: rest)) (-1)) with (@Ok Z (row_energy_max y))
    by (rewrite Hl at 1; rewrite getitem_map_last; reflexivity).
  reflexivity.
Qed.

(** What one iteration can do on a group index of the table: raise the
    inconsistency failure, raise the constructor's failure, or return a
    group with that index. *)
Lemma group_of_rows_cases (table : Table) (idx : Z) :
  In idx (np.unique (map row_energy_group_idx table)) ->
  (group_of_rows table idx = Raise (ValueError msg_inconsistent)
   /\ 1 < Z.of_nat (List.length (py_set (map row_bin_type (select table idx)))))
  \/ (exists r, In r table /\ ~ In (row_bin_type r) valid_bin_types
        /\ group_of_rows table idx
           = Raise (ValueError ("Invalid bin type: " ++ row_bin_type r)%string)
        /\ ~ 1 < Z.of_nat (List.length (py_set (map row_bin_type (select table idx)))))
  \/ (exists g, group_of_rows table idx = Ok g /\ energy_group_idx g = idx
        /\ ~ 1 < Z.of_nat (List.length (py_set (map row_bin_type (select table idx))))).
Proof.
  intros Hin. destruct (select_nonempty table idx Hin) as [r [rest E]].
  rewrite (group_of_rows_nonempty table idx r rest E). rewrite E.
  destruct (1 <? Z.of_nat (List.length (py_set (map row_bin_type (r :: rest))))) eqn:C.
  - left. apply Z.ltb_lt in C. auto.
  - right. apply Z.ltb_ge in C.
    destruct (in_dec string_dec (row_bin_type r) valid_bin_types) as [Hv | Hv].
    + right. eexists. split; [apply init_valid; exact Hv|]. split; [reflexivity | lia].
    + left. exists r. split.
      * assert (In r (select table idx)) as Hr by (rewrite E; left; reflexivity).
        apply select_In in Hr. tauto.
      * split; [exact Hv|]. split; [apply init_invalid; exact Hv | lia].
Qed.

Lemma inconsistent_select (table : Table) :
  inconsistent_bin_type table <->
  exists idx, In idx (np.unique (map row_energy_group_idx table))
    /\ 1 < Z.of_nat (List.length (py_set (map row_bin_type (select table idx)))).
Proof.
  split.
  - intros [r1 [r2 [H1 [H2 [Hidx Hbt]]]]].
    exists (row_energy_group_idx r1). split.
    + apply unique_In. apply in_map. exact H1.
    + apply py_set_gt1. exists (row_bin_type r1), (row_bin_type r2).
      repeat split; [| | exact Hbt]; apply in_map; apply select_In; auto.
  - intros [idx [_ H]]. apply py_set_gt1 in H.
    destruct H as [x [y [Hx [Hy Hxy]]]].
    apply in_map_iff in Hx, Hy.
    destruct Hx as [r1 [<- Hr1]]. destruct Hy as [r2 [<- Hr2]].
    apply select_In in Hr1, Hr2.
    exists r1, r2. repeat split; try tauto. destruct Hr1, Hr2. congruence.
Qed.


(** ** SpectrumEnergyGroups.from_total_table *)


Lemma table_unordered_consistent : ~ inconsistent_bin_type table_unordered.
Proof.
  intros H. apply inconsistent_select in H. destruct H as [idx [Hin Hgt]].
  simpl in Hin.
  repeat (destruct Hin as [<- | Hin]; [vm_compute in Hgt; discriminate Hgt|]).
  destruct Hin.
Qed.

Lemma table_inconsistent_inconsistent : inconsistent_bin_type table_inconsistent.
Proof.
  exists (mkRow 3 0 "underflow" (3 * TeV) (4 * TeV)), (mkRow 4 0 "normal" (4 * TeV) (5 * TeV)).
  simpl. repeat split; auto 6. discriminate.
Qed.








Lemma Forall2_map_back {A B : Type} (f : A -> result B) (h : B -> A)
    (l : list A) (ys : list B) :
  Forall2 (fun x y => f x = Ok y) l ys ->
  (forall x y, In x l -> f x = Ok y -> h y = x) ->
  map h ys = l.
Proof.
  induction 1 as [| x y l ys Hxy _ IH]; intros Hh; simpl; [reflexivity|].
  f_equal.
  - apply Hh; [left; reflexivity | exact Hxy].
  - apply IH. intros x' y' Hin. apply Hh. right. exact Hin.
Qed.

Lemma from_total_table_idx (table : Table) (groups : SpectrumEnergyGroups) :
  from_total_table table = Ok groups ->
  map energy_group_idx groups = np.unique (map row_energy_group_idx table).
Proof.
  intros H. apply for_each_Ok in H.
  apply (Forall2_map_back _ _ _ _ H).
  intros idx g Hin Hg.
  destruct (group_of_rows_cases table idx Hin)
    as [[He _] | [[r [_ [_ [He _]]]] | [g' [Hg' [Hidx _]]]]]; congruence.
Qed.

(** C10: the groups that [from_total_table] returns carry the sorted
    distinct values of the column [energy_group_idx], in ascending order,
    whatever the order of the rows of the table; a table whose bin types are
    valid and agree within every group does give such a list. *)
Theorem from_total_table_sorted (table : Table) :
  (forall groups, from_total_table table = Ok groups ->
     map energy_group_idx groups = np.unique (map row_energy_group_idx table)
     /\ StronglySorted Z.lt (map energy_group_idx groups))
  /\ (forall table' groups groups',
        Permutation table table' ->
        from_total_table table = Ok groups ->
        from_total_table table' = Ok groups' ->
        map energy_group_idx groups' = map energy_group_idx groups)
  /\ ((forall r, In r table -> In (row_bin_type r) valid_bin_types) ->
      ~ inconsistent_bin_type table ->
      exists groups, from_total_table table = Ok groups).
Proof.
  split; [|split].
  - intros groups H. apply from_total_table_idx in H. rewrite H.
    split; [reflexivity | apply unique_sorted].
  - intros table' groups groups' HP H H'.
    apply from_total_table_idx in H, H'. rewrite H, H'.
    symmetry. apply unique_Permutation. apply Permutation_map. exact HP.
  - intros Hvalid Hcons. apply for_each_total. intros idx Hin.
    destruct (group_of_rows_cases table idx Hin)
      as [[_ Hgt] | [[r [Hr [Hnv _]]] | [g [Hg _]]]].
    + exfalso. apply Hcons. apply inconsistent_select. exists idx. auto.
    + exfalso. apply Hnv. apply Hvalid. exact Hr.
    + exists g. exact Hg.
Qed.

Lemma from_total_table_sorted_witness :
  exists groups,
    from_total_table table_unordered = Ok groups
    /\ map energy_group_idx groups = [0; 1; 2].
Proof.
  destruct (from_total_table_sorted table_unordered) as [Hsorted [_ Hok]].
  destruct Hok as [groups Hg].
  - intros r Hr. simpl in Hr.
    repeat (destruct Hr as [<- | Hr]; [simpl; auto|]). destruct Hr.
  - exact table_unordered_consistent.
  - exists groups. split; [exact Hg|].
    destruct (Hsorted groups Hg) as [Hidx _]. rewrite Hidx. reflexivity.
Defined.

(** ** Bin tables *)

Lemma arange_cons (a b : Z) :
  a < b -> np.arange a b = a :: np.arange (a + 1) b.
Proof.
  intros H. unfold np.arange.
  replace (Z.to_nat (b - a)) with (S (Z.to_nat (b - (a + 1)))) by lia.
  cbn [seq]. rewrite <- seq_shift. cbn [map]. rewrite map_map.
  f_equal; [lia|]. apply map_ext. intros k. lia.
Qed.

Lemma arange_snoc (a b : Z) :
  a <= b -> np.arange a (b + 1) = np.arange a b ++ [b].
Proof.
  intros H. unfold np.arange.
  replace (Z.to_nat (b + 1 - a)) with (S (Z.to_nat (b - a))) by lia.
  rewrite seq_S, map_app. simpl. do 2 f_equal. lia.
Qed.

Lemma arange_one (a : Z) : np.arange a (a + 1) = [a].
Proof.
  unfold np.arange. replace (a + 1 - a) with 1 by lia. simpl. f_equal. lia.
Qed.

Section BinTable.

Variable g : SpectrumEnergyGroup.
Hypothesis Hrange : bin_idx_min g <= bin_idx_max g.

Lemma bin_table_first :
  exists rest,
    bin_table g
    = mkRow (bin_idx_min g) (energy_group_idx g) (bin_type g) (energy_min g) (energy_max g)
      :: rest.
Proof.
  unfold bin_table, bin_idx_array. rewrite arange_cons by lia.
  simpl. eexists. reflexivity.
Qed.

Lemma bin_table_last :
  exists front,
    bin_table g
    = front ++ [mkRow (bin_idx_max g) (energy_group_idx g) (bin_type g)
                  (energy_min g) (energy_max g)].
Proof.
  unfold bin_table, bin_idx_array. rewrite arange_snoc by lia.
  rewrite map_app. simpl. eexists. reflexivity.
Qed.

End BinTable.

Lemma bin_table_In (g : SpectrumEnergyGroup) (r : Row) :
  In r (bin_table g) ->
  row_energy_group_idx r = energy_group_idx g /\ row_bin_type r = bin_type g.
Proof.
  unfold bin_table. intros H. apply in_map_iff in H.
  destruct H as [i [<- _]]. simpl. auto.
Qed.

Lemma select_app (t1 t2 : Table) (idx : Z) :
  select (t1 ++ t2) idx = select t1 idx ++ select t2 idx.
Proof. unfold select. apply filter_app. Qed.

Lemma select_bin_table_same (g : SpectrumEnergyGroup) :
  select (bin_table g) (energy_group_idx g) = bin_table g.
Proof.
  unfold select. apply forallb_filter_id. apply forallb_forall.
  intros r Hr. apply bin_table_In in Hr. apply Z.eqb_eq. tauto.
Qed.

Lemma select_bin_table_other (g : SpectrumEnergyGroup) (idx : Z) :
  energy_group_idx g <> idx -> select (bin_table g) idx = [].
Proof.
  intros Hne. destruct (select (bin_table g) idx) as [| r rest] eqn:E; [reflexivity|].
  exfalso. assert (In r (select (bin_table g) idx)) as Hr by (rewrite E; left; reflexivity).
  apply select_In in Hr. destruct Hr as [Hr Hidx].
  apply bin_table_In in Hr. apply Hne. destruct Hr. congruence.
Qed.

Lemma select_concat_other (groups : SpectrumEnergyGroups) (idx : Z) :
  Forall (fun g => energy_group_idx g <> idx) groups ->
  select (List.concat (map bin_table groups)) idx = [].
Proof.
  induction 1 as [| g groups Hg _ IH]; simpl; [reflexivity|].
  rewrite select_app, IH, select_bin_table_other by exact Hg. reflexivity.
Qed.

Lemma select_concat_same (groups : SpectrumEnergyGroups) (g : SpectrumEnergyGroup) :
  ascending_idx groups -> In g groups ->
  select (List.concat (map bin_table groups)) (energy_group_idx g) = bin_table g.
Proof.
  unfold ascending_idx. induction groups as [| g0 groups IH]; simpl; [intros _ []|].
  intros Hs Hin. inversion Hs as [| ? ? Hs' Hlt]; subst.
  rewrite Forall_forall in Hlt. rewrite select_app.
  assert (forall g', In g' groups -> energy_group_idx g0 < energy_group_idx g') as Hlt'
    by (intros g' Hg'; apply Hlt; apply in_map; exact Hg').
  destruct Hin as [-> | Hin].
  - rewrite select_bin_table_same, select_concat_other; [apply app_nil_r|].
    apply Forall_forall. intros g' Hg'. specialize (Hlt' g' Hg'). lia.
  - rewrite select_bin_table_other by (specialize (Hlt' g Hin); lia).
    simpl. apply IH; assumption.
Qed.

Lemma unique_concat (groups : SpectrumEnergyGroups) :
  ascending_idx groups ->
  Forall (fun g => bin_idx_min g <= bin_idx_max g) groups ->
  np.unique (map row_energy_group_idx (List.concat (map bin_table groups)))
  = map energy_group_idx groups.
Proof.
  intros Hs Hr. apply sorted_ext; [apply unique_sorted | exact Hs |].
  intros x. rewrite unique_In, !in_map_iff. split.
  - intros [r [Hx Hin]]. apply in_concat in Hin. destruct Hin as [t [Ht Hin]].
    apply in_map_iff in Ht. destruct Ht as [g [<- Hg]].
    exists g. apply bin_table_In in Hin. destruct Hin. split; [congruence | exact Hg].
  - intros [g [Hx Hg]]. rewrite Forall_forall in Hr.
    destruct (bin_table_first g (Hr g Hg)) as [rest E].
    eexists. split; [|apply in_concat; exists (bin_table g); split;
                      [apply in_map; exact Hg | rewrite E; left; reflexivity]].
    simpl. exact Hx.
Qed.

Lemma group_of_rows_bin_table (table : Table) (g : SpectrumEnergyGroup) :
  select table (energy_group_idx g) = bin_table g ->
  valid_bin_type g -> bin_idx_min g <= bin_idx_max g ->
  group_of_rows table (energy_group_idx g) = Ok g.
Proof.
  intros Hsel Hv Hr.
  destruct (bin_table_first g Hr) as [rest E].
  destruct (bin_table_last g Hr) as [front E'].
  rewrite E in Hsel. rewrite (group_of_rows_nonempty _ _ _ _ Hsel).
  rewrite <- E.
  assert (~ 1 < Z.of_nat (List.length (py_set (map row_bin_type (bin_table g))))) as Hc.
  { rewrite py_set_gt1. intros [x [y [Hx [Hy Hxy]]]].
    apply in_map_iff in Hx, Hy. destruct Hx as [r1 [<- H1]]. destruct Hy as [r2 [<- H2]].
    apply bin_table_In in H1, H2. destruct H1, H2. congruence. }
  apply Z.ltb_nlt in Hc. rewrite Hc.
  rewrite E' at 1. rewrite E' at 1. rewrite !last_last. simpl.
  destruct g. apply init_valid. exact Hv.
Qed.

Lemma from_total_table_concat (groups : SpectrumEnergyGroups) :
  ascending_idx groups ->
  Forall valid_bin_type groups ->
  Forall (fun g => bin_idx_min g <= bin_idx_max g) groups ->
  from_total_table (List.concat (map bin_table groups)) = Ok groups.
Proof.
  intros Hs Hv Hr. unfold from_total_table.
  rewrite unique_concat by assumption.
  apply for_each_map_Ok. intros g Hg.
  rewrite Forall_forall in Hv, Hr.
  apply group_of_rows_bin_table; [apply select_concat_same | apply Hv | apply Hr]; assumption.
Qed.

(** ** Dictionaries and the group table *)

Lemma from_dict_to_dict (g : SpectrumEnergyGroup) :
  valid_bin_type g -> from_dict (to_dict g) = Ok g.
Proof.
  destruct g as [idx bmin bmax bt emin emax]. unfold valid_bin_type. simpl.
  intros Hv. unfold from_dict, to_dict, _data, fields, getattr. cbn.
  apply init_valid. exact Hv.
Qed.

Lemma to_dict_injective (g other : SpectrumEnergyGroup) :
  to_dict g = to_dict other -> g = other.
Proof.
  destruct g, other. unfold to_dict, _data, fields, getattr. cbn.
  intros H. inversion H. reflexivity.
Qed.

(** [==] on groups decides equality of the six members. *)
Lemma eq_group_true (g other : SpectrumEnergyGroup) :
  eq_group g other = true <-> g = other.
Proof.
  unfold eq_group.
  destruct (list_eq_dec item_eq_dec (to_dict g) (to_dict other)) as [E | E]; split.
  - intros _. apply to_dict_injective. exact E.
  - reflexivity.
  - discriminate.
  - intros ->. contradiction.
Qed.

Lemma from_group_table_to_group_table (groups : SpectrumEnergyGroups) :
  Forall valid_bin_type groups ->
  from_group_table (to_group_table groups) = Ok groups.
Proof.
  intros Hv. unfold from_group_table, to_group_table, table_from_row_data.
  apply for_each_map_Ok. intros g Hg. unfold table_row_to_dict.
  apply from_dict_to_dict. rewrite Forall_forall in Hv. apply Hv. exact Hg.
Qed.

(** ** Round trips *)

(** C3, as the code has it: for every list of valid groups the group table
    gives the list back; the table with one bin per row gives it back when
    the list is not empty and its [energy_group_idx] values grow strictly
    along the list. *)
Theorem table_round_trip (groups : SpectrumEnergyGroups) :
  Forall valid_group groups ->
  from_group_table (to_group_table groups) = Ok groups
  /\ (groups <> [] -> ascending_idx groups ->
      exists table, to_total_table groups = Ok table
        /\ from_total_table table = Ok groups).
Proof.
  intros Hvalid.
  assert (Forall valid_bin_type groups) as Hv
    by (eapply Forall_impl; [|exact Hvalid]; intros g Hg; apply Hg).
  assert (Forall (fun g => bin_idx_min g <= bin_idx_max g) groups) as Hr
    by (eapply Forall_impl; [|exact Hvalid]; intros g Hg; apply Hg).
  split.
  - apply from_group_table_to_group_table. exact Hv.
  - intros Hne Hs. exists (List.concat (map bin_table groups)). split.
    + unfold to_total_table, table_vstack.
      destruct groups; [contradiction | reflexivity].
    + apply from_total_table_concat; assumption.
Qed.

Lemma test_groups_valid : Forall valid_group test_groups.
Proof.
  unfold test_groups, valid_group, valid_bin_type, TeV.
  repeat constructor; simpl; auto; lia.
Qed.

Lemma table_round_trip_witness :
  from_group_table (to_group_table test_groups) = Ok test_groups
  /\ exists table, to_total_table test_groups = Ok table
       /\ from_total_table table = Ok test_groups.
Proof.
  destruct (table_round_trip test_groups test_groups_valid) as [Hgroup Htotal].
  split; [exact Hgroup|].
  apply Htotal.
  - discriminate.
  - unfold ascending_idx. simpl. repeat constructor.
Defined.

(** C3 as stated fails for the table with one bin per row: two valid groups
    listed with descending [energy_group_idx] come back in ascending
    order. *)
Lemma total_table_round_trip_reorders :
  let groups := [ mkSpectrumEnergyGroup 1 0 0 "normal" (1 * TeV) (2 * TeV);
                  mkSpectrumEnergyGroup 0 1 1 "normal" (2 * TeV) (3 * TeV) ] in
  Forall valid_group groups
  /\ exists table, to_total_table groups = Ok table
       /\ from_total_table table = Ok (rev groups)
       /\ from_total_table table <> Ok groups.
Proof.
  intros groups. split.
  - unfold valid_group, valid_bin_type, TeV. repeat constructor; simpl; auto; lia.
  - eexists. split; [reflexivity|]. split; [reflexivity|].
    vm_compute. discriminate.
Qed.

(** Two valid groups that share their [energy_group_idx] come back as one
    group. *)
Example total_table_round_trip_merges :
  let groups := [ mkSpectrumEnergyGroup 0 0 0 "normal" (1 * TeV) (2 * TeV);
                  mkSpectrumEnergyGroup 0 1 1 "normal" (2 * TeV) (3 * TeV) ] in
  (t <- to_total_table groups ;; from_total_table t)
  = Ok [ mkSpectrumEnergyGroup 0 0 1 "normal" (1 * TeV) (3 * TeV) ].
Proof. reflexivity. Qed.

(** An empty list has no bin tables to stack. *)
Example to_total_table_empty :
  exists e, to_total_table [] = Raise e.
Proof. eexists. reflexivity. Qed.

(** ** SpectrumEnergyGroupMaker.groups_from_obs *)

Lemma bin_table_single (k idx : Z) (bt : string) (lo hi : Quantity) :
  bin_table (mkSpectrumEnergyGroup idx k k bt lo hi) = [mkRow k idx bt lo hi].
Proof.
  unfold bin_table, bin_idx_array. cbn [bin_idx_min bin_idx_max].
  rewrite arange_one. reflexivity.
Qed.

Lemma one_per_bin_table (los : list Quantity) :
  forall (his : list Quantity) (k : Z),
    List.length los = List.length his ->
    Table_from_columns
      (np.arange k (k + Z.of_nat (List.length los)))
      (np.arange k (k + Z.of_nat (List.length los)))
      (repeat "normal" (List.length los)) los his
    = Ok (List.concat (map bin_table (one_per_bin k los his))).
Proof.
  induction los as [| lo los IH]; intros [| hi his] k Hlen; simpl in Hlen; try discriminate.
  - simpl. replace (k + 0) with k by lia. unfold np.arange.
    rewrite Z.sub_diag. reflexivity.
  - injection Hlen as Hlen.
    rewrite arange_cons by (simpl List.length; lia).
    replace (k + Z.of_nat (List.length (lo :: los)))
      with (k + 1 + Z.of_nat (List.length los)) by (simpl List.length; lia).
    cbn [List.length repeat Table_from_columns one_per_bin map List.concat].
    rewrite (IH his (k + 1) Hlen). cbn [bind].
    rewrite bin_table_single. reflexivity.
Qed.

Lemma one_per_bin_idx (los : list Quantity) :
  forall (his : list Quantity) (k : Z) (g : SpectrumEnergyGroup),
    In g (one_per_bin k los his) ->
    k <= energy_group_idx g /\ bin_type g = "normal"
    /\ bin_idx_min g = bin_idx_max g.
Proof.
  induction los as [| lo los IH]; intros [| hi his] k g; simpl; try contradiction.
  intros [<- | Hin]; [simpl; repeat split; lia|].
  destruct (IH his (k + 1) g Hin) as [Hk H]. split; [lia | exact H].
Qed.

Lemma one_per_bin_ascending (los : list Quantity) :
  forall (his : list Quantity) (k : Z), ascending_idx (one_per_bin k los his).
Proof.
  unfold ascending_idx.
  induction los as [| lo los IH]; intros [| hi his] k; simpl; try constructor.
  - apply IH.
  - apply Forall_forall. intros x Hx. apply in_map_iff in Hx.
    destruct Hx as [g [<- Hg]]. apply one_per_bin_idx in Hg. lia.
Qed.

Lemma one_per_bin_nth (los : list Quantity) :
  forall (his : list Quantity) (k : Z) (i : nat),
    List.length los = List.length his -> (i < List.length los)%nat ->
    exists lo hi,
      nth_error los i = Some lo /\ nth_error his i = Some hi
      /\ nth_error (one_per_bin k los his) i
         = Some (mkSpectrumEnergyGroup (k + Z.of_nat i) (k + Z.of_nat i) (k + Z.of_nat i)
                   "normal" lo hi).
Proof.
  induction los as [| lo los IH]; intros [| hi his] k i Hlen Hi; simpl in *;
    try discriminate; try lia.
  destruct i as [| i].
  - exists lo, hi. simpl. replace (k + 0) with k by lia. auto.
  - destruct (IH his (k + 1) i) as [lo' [hi' [Hlo [Hhi Hg]]]]; [lia | lia |].
    exists lo', hi'. simpl nth_error.
    replace (k + Z.of_nat (S i)) with (k + 1 + Z.of_nat i) by lia. auto.
Qed.

Lemma one_per_bin_length (los : list Quantity) :
  forall (his : list Quantity) (k : Z),
    List.length los = List.length his ->
    List.length (one_per_bin k los his) = List.length los.
Proof.
  induction los as [| lo los IH]; intros [| hi his] k Hlen; simpl in *;
    try discriminate; [reflexivity|].
  f_equal. apply IH. lia.
Qed.

(** C8: for an observation with [n] bins, [groups_from_obs] gives exactly
    [n] groups; group [i] has [energy_group_idx], [bin_idx_min] and
    [bin_idx_max] equal to [i], bin type "normal", and the lower and upper
    edge of bin [i] as its energy bounds. *)
Theorem groups_from_obs_one_per_bin (obs : SpectrumObservation) :
  List.length (lower_bounds (e_reco obs)) = List.length (upper_bounds (e_reco obs)) ->
  exists groups,
    groups_from_obs obs = Ok groups
    /\ Z.of_nat (List.length groups) = nbins (e_reco obs)
    /\ forall i, (i < List.length groups)%nat ->
         exists lo hi,
           nth_error (lower_bounds (e_reco obs)) i = Some lo
           /\ nth_error (upper_bounds (e_reco obs)) i = Some hi
           /\ nth_error groups i
              = Some (mkSpectrumEnergyGroup (Z.of_nat i) (Z.of_nat i) (Z.of_nat i)
                        "normal" lo hi).
Proof.
  intros Hlen.
  exists (one_per_bin 0 (lower_bounds (e_reco obs)) (upper_bounds (e_reco obs))).
  split; [|split].
  - unfold groups_from_obs, nbins. cbv zeta. rewrite Nat2Z.id.
    pose proof (one_per_bin_table _ _ 0 Hlen) as Ht. rewrite Z.add_0_l in Ht.
    rewrite Ht. cbn [bind].
    apply from_total_table_concat.
    + apply one_per_bin_ascending.
    + apply Forall_forall. intros g Hg. apply one_per_bin_idx in Hg.
      unfold valid_bin_type. destruct Hg as [_ [-> _]]. simpl. auto.
    + apply Forall_forall. intros g Hg. apply one_per_bin_idx in Hg. lia.
  - unfold nbins. rewrite one_per_bin_length by exact Hlen. reflexivity.
  - intros i Hi. rewrite one_per_bin_length in Hi by exact Hlen.
    apply (one_per_bin_nth _ _ 0 i Hlen Hi).
Qed.

Lemma groups_from_obs_one_per_bin_witness :
  exists groups,
    groups_from_obs obs_1_10 = Ok groups
    /\ List.length groups = 9%nat
    /\ nth_error groups 8
       = Some (mkSpectrumEnergyGroup 8 8 8 "normal" (9 * TeV) (10 * TeV)).
Proof.
  destruct (groups_from_obs_one_per_bin obs_1_10 eq_refl) as [groups [Hg [Hn Hi]]].
  exists groups. split; [exact Hg|].
  assert (List.length groups = 9%nat) as Hlen
    by (apply Nat2Z.inj; rewrite Hn; reflexivity).
  split; [exact Hlen|].
  destruct (Hi 8%nat ltac:(lia)) as [lo [hi [Hlo [Hhi H8]]]].
  vm_compute in Hlo, Hhi. inversion Hlo. inversion Hhi. subst. exact H8.
Defined.

(** * Further properties *)

(** ** Dictionaries *)

Lemma dict_get_cases (data : OrderedDict) (key : string) :
  (exists v, dict_get data key = Ok v /\ In (key, v) data)
  \/ (dict_get data key = Raise (KeyError key) /\ missing data key).
Proof.
  unfold missing. induction data as [| [k v] data IH]; simpl.
  - right. split; [reflexivity | tauto].
  - destruct (String.eqb_spec k key) as [-> | Hne].
    + left. exists v. auto.
    + destruct IH as [[v' [Hv' Hin]] | [Hr Hm]].
      * left. exists v'. auto.
      * right. split; [exact Hr | tauto].
Qed.

Lemma for_each_ext {A B : Type} (f g : A -> result B) (l : list A) :
  (forall x, In x l -> f x = g x) -> for_each f l = for_each g l.
Proof.
  induction l as [| x l IH]; intros H; simpl; [reflexivity|].
  rewrite (H x (or_introl eq_refl)), IH; [reflexivity|].
  intros y Hy. apply H. right. exact Hy.
Qed.

Lemma for_each_first_Raise {A B : Type} (f : A -> result B) (l : list A) (e : exn) :
  for_each f l = Raise e ->
  exists before x after,
    l = before ++ x :: after
    /\ (forall y, In y before -> exists z, f y = Ok z)
    /\ f x = Raise e.
Proof.
  induction l as [| x l IH]; simpl; [discriminate|].
  destruct (f x) as [y | e'] eqn:Hx; simpl.
  - destruct (for_each f l) as [ys | e''] eqn:Hl; simpl; [discriminate|].
    intros H. inversion H. subst.
    destruct (IH eq_refl) as [before [x' [after [Hl' [Hb Hx']]]]].
    exists (x :: before), x', after. split; [simpl; f_equal; exact Hl'|].
    split; [|exact Hx'].
    intros y' [<- | Hy']; [exists y; exact Hx | apply Hb; exact Hy'].
  - intros H. inversion H. subst. exists [], x, l. simpl.
    split; [reflexivity|]. split; [intros y []| exact Hx].
Qed.

(** [from_dict] of [to_dict] gives the group back when its bin type is a
    valid one; for a group whose [bin_type] is not valid the constructor
    refuses the dictionary with [ValueError]. *)
Theorem from_dict_round_trip (g : SpectrumEnergyGroup) :
  (valid_bin_type g -> from_dict (to_dict g) = Ok g)
  /\ (~ valid_bin_type g ->
      from_dict (to_dict g)
      = Raise (ValueError ("Invalid bin type: " ++ bin_type g)%string)).
Proof.
  destruct g as [idx bmin bmax bt emin emax]. unfold valid_bin_type.
  cbn [bin_type]. split; intros Hv.
  - unfold from_dict, to_dict, _data, fields, getattr. cbn.
    apply init_valid. exact Hv.
  - unfold from_dict, to_dict, _data, fields, getattr. cbn.
    apply init_invalid. exact Hv.
Qed.

Lemma from_dict_round_trip_witness :
  from_dict (to_dict (mkSpectrumEnergyGroup 3 10 20 "normal" (100 * TeV) (200 * TeV)))
  = Ok (mkSpectrumEnergyGroup 3 10 20 "normal" (100 * TeV) (200 * TeV))
  /\ from_dict (to_dict (mkSpectrumEnergyGroup 3 10 20 "spam" (100 * TeV) (200 * TeV)))
     = Raise (ValueError "Invalid bin type: spam").
Proof.
  split.
  - apply (proj1 (from_dict_round_trip _)). unfold valid_bin_type. simpl. auto.
  - apply (proj2 (from_dict_round_trip
                    (mkSpectrumEnergyGroup 3 10 20 "spam" (100 * TeV) (200 * TeV)))).
    unfold valid_bin_type. simpl. intros [H | [H | [H | []]]]; discriminate H.
Defined.

(** A dictionary that lacks one of the six fields is refused with the
    [KeyError] of the first field, in the order of [fields], that it
    lacks. *)
Theorem from_dict_missing_key (data : OrderedDict) :
  (exists f, In f fields /\ missing data f) ->
  exists before key after,
    fields = before ++ key :: after
    /\ (forall f, In f before -> ~ missing data f)
    /\ missing data key
    /\ from_dict data = Raise (KeyError key).
Proof.
  intros [f [Hf Hm]].
  set (look := fun f => v <- dict_get data f ;; Ok (f, v)).
  assert (look f = Raise (KeyError f)) as Hlook.
  { unfold look. destruct (dict_get_cases data f) as [[v [_ Hin]] | [Hr _]].
    - exfalso. apply Hm. apply in_map_iff. exists (f, v). auto.
    - rewrite Hr. reflexivity. }
  destruct (for_each_fails look fields f _ Hf Hlook) as [e He].
  destruct (for_each_first_Raise look fields e He) as [before [key [after [Hl [Hb Hk]]]]].
  exists before, key, after. split; [exact Hl|].
  assert (e = KeyError key /\ missing data key) as [-> Hmk].
  { unfold look in Hk. destruct (dict_get_cases data key) as [[v [Hv _]] | [Hr Hmk]].
    - rewrite Hv in Hk. discriminate.
    - rewrite Hr in Hk. simpl in Hk. inversion Hk. auto. }
  split; [|split; [exact Hmk|]].
  - intros f' Hf' Hm'. destruct (Hb f' Hf') as [z Hz]. unfold look in Hz.
    destruct (dict_get_cases data f') as [[v [Hv Hin]] | [Hr _]].
    + apply Hm'. apply in_map_iff. exists (f', v). auto.
    + rewrite Hr in Hz. discriminate.
  - unfold from_dict. fold look. rewrite He. reflexivity.
Qed.

Lemma from_dict_missing_key_witness :
  exists key,
    from_dict [("energy_group_idx", VInt 3); ("bin_idx_min", VInt 10);
               ("bin_type", VStr "normal"); ("energy_min", VQuantity (100 * TeV))]
    = Raise (KeyError key).
Proof.
  destruct (from_dict_missing_key
              [("energy_group_idx", VInt 3); ("bin_idx_min", VInt 10);
               ("bin_type", VStr "normal"); ("energy_min", VQuantity (100 * TeV))])
    as [before [key [after [_ [_ [_ H]]]]]].
  - exists "energy_max". split; [simpl; auto 7|].
    unfold missing. simpl. intros [H | [H | [H | [H | []]]]]; discriminate H.
  - exists key. exact H.
Defined.

(** [from_dict] reads the six fields and nothing else: two dictionaries that
    hold the same value under each of the six keys give the same result,
    whatever other keys they hold and in whatever order. *)
Theorem from_dict_reads_fields (data data' : OrderedDict) :
  (forall f, In f fields -> dict_get data f = dict_get data' f) ->
  from_dict data = from_dict data'.
Proof.
  intros H. unfold from_dict.
  rewrite (for_each_ext (fun f => v <- dict_get data f ;; Ok (f, v))
                        (fun f => v <- dict_get data' f ;; Ok (f, v))).
  - reflexivity.
  - intros f Hf. rewrite (H f Hf). reflexivity.
Qed.

Lemma from_dict_reads_fields_witness :
  from_dict (("energy_group_n_bins", VInt 11)
             :: rev (to_dict (mkSpectrumEnergyGroup 3 10 20 "normal" (100 * TeV) (200 * TeV))))
  = Ok (mkSpectrumEnergyGroup 3 10 20 "normal" (100 * TeV) (200 * TeV)).
Proof.
  rewrite (from_dict_reads_fields _
             (to_dict (mkSpectrumEnergyGroup 3 10 20 "normal" (100 * TeV) (200 * TeV)))).
  - reflexivity.
  - intros f Hf. simpl in Hf.
    repeat (destruct Hf as [<- | Hf]; [reflexivity|]). destruct Hf.
Defined.

(** ** Bin tables of a group *)





(** ** energy_range and energy_bounds *)

Lemma getitem_empty {A : Type} (i : Z) :
  np.getitem (@nil A) i = Raise (IndexError "index out of bounds").
Proof.
  unfold np.getitem. cbv zeta. simpl List.length.
  set (j := if i <? 0 then i + Z.of_nat 0 else i).
  destruct ((0 <=? j) && (j <? Z.of_nat 0)) eqn:E; [|reflexivity].
  apply andb_true_iff in E. destruct E as [E1 E2].
  apply Z.leb_le in E1. apply Z.ltb_lt in E2. simpl in E2. lia.
Qed.

Lemma last_cons {A : Type} (l : list A) :
  forall a d : A, last (a :: l) d = last l a.
Proof.
  induction l as [| b l IH]; intros a d; [reflexivity|].
  change (last (a :: b :: l) d) with (last (b :: l) d).
  rewrite (IH b d), (IH b a). reflexivity.
Qed.

Lemma getitem_last_cons {A : Type} (x : A) (l : list A) :
  np.getitem (x :: l) (-1) = Ok (last l x).
Proof.
  assert (last (x :: l) x = last l x) as Hl by apply last_cons.
  assert (x :: l = removelast (x :: l) ++ [last l x]) as H
    by (rewrite <- Hl; apply app_removelast_last; discriminate).
  rewrite H at 1. apply getitem_last.
Qed.

(** [energy_range] and [energy_bounds] raise [IndexError] on an empty list
    of groups; on a list that starts with [first] they return the
    [energy_min] of [first] and the [energy_max] of the last group,
    respectively the [energy_min] of every group followed by the
    [energy_max] of the last group. *)
Theorem energy_bounds_of_groups (groups : SpectrumEnergyGroups) :
  (groups = [] ->
     (exists msg, energy_range groups = Raise (IndexError msg))
     /\ (exists msg, energy_bounds groups = Raise (IndexError msg)))
  /\ (forall first rest, groups = first :: rest ->
        energy_range groups = Ok [energy_min first; energy_max (last rest first)]
        /\ energy_bounds groups
           = Ok (map energy_min groups ++ [energy_max (last rest first)])).
Proof.
  split.
  - intros ->. unfold energy_range, energy_bounds. rewrite !getitem_empty.
    split; eexists; reflexivity.
  - intros first rest ->. unfold energy_range, energy_bounds.
    rewrite getitem_first, getitem_last_cons. split; reflexivity.
Qed.

Lemma energy_bounds_of_groups_witness :
  energy_range test_groups = Ok [100 * TeV; 300 * TeV]
  /\ energy_bounds test_groups = Ok [100 * TeV; 210 * TeV; 260 * TeV; 270 * TeV; 300 * TeV].
Proof.
  exact (proj2 (energy_bounds_of_groups test_groups) _ _ eq_refl).
Defined.

Lemma energy_bounds_next (gs : SpectrumEnergyGroups) :
  forall (g0 : SpectrumEnergyGroup) (i : nat) (g : SpectrumEnergyGroup),
    contiguous_energy (g0 :: gs) ->
    nth_error (g0 :: gs) i = Some g ->
    nth_error (map energy_min (g0 :: gs) ++ [energy_max (last gs g0)]) (S i)
    = Some (energy_max g).
Proof.
  induction gs as [| g1 gs IH]; intros g0 i g Hc Hn.
  - destruct i as [| i]; simpl in Hn.
    + inversion Hn. reflexivity.
    + destruct i; discriminate Hn.
  - destruct Hc as [Heq Hc]. destruct i as [| i]; simpl in Hn.
    + inversion Hn. subst. simpl. f_equal. symmetry. exact Heq.
    + specialize (IH g1 i g Hc Hn).
      replace (last (g1 :: gs) g0) with (last gs g1) by (symmetry; apply last_cons).
      exact IH.
Qed.

(** When every group ends where the next one starts, the entries [i] and
    [i + 1] of [energy_bounds] are the [energy_min] and the [energy_max] of
    group [i], and there is one entry more than there are groups. *)
Theorem energy_bounds_contiguous (groups : SpectrumEnergyGroups) (bounds : list Quantity) :
  contiguous_energy groups ->
  energy_bounds groups = Ok bounds ->
  List.length bounds = S (List.length groups)
  /\ forall i g, nth_error groups i = Some g ->
       nth_error bounds i = Some (energy_min g)
       /\ nth_error bounds (S i) = Some (energy_max g).
Proof.
  intros Hc Hb. destruct groups as [| g0 gs].
  - unfold energy_bounds in Hb. rewrite getitem_empty in Hb. discriminate.
  - destruct (proj2 (energy_bounds_of_groups (g0 :: gs)) g0 gs eq_refl) as [_ Hb'].
    rewrite Hb' in Hb.
    assert (bounds = map energy_min (g0 :: gs) ++ [energy_max (last gs g0)]) as ->
      by congruence.
    clear Hb Hb'. split.
    + rewrite length_app, length_map. simpl. lia.
    + intros i g Hn. split.
      * rewrite nth_error_app1
          by (rewrite length_map; apply nth_error_Some; congruence).
        apply map_nth_error. exact Hn.
      * apply energy_bounds_next; assumption.
Qed.

Lemma energy_bounds_contiguous_witness :
  exists bounds,
    energy_bounds test_groups = Ok bounds
    /\ nth_error bounds 2 = Some (260 * TeV)
    /\ nth_error bounds 3 = Some (270 * TeV).
Proof.
  eexists. split; [reflexivity|].
  apply (proj2 (energy_bounds_contiguous test_groups _
                  ltac:(simpl; repeat split) eq_refl) 2%nat
               (mkSpectrumEnergyGroup 5 26 26 "normal" (260 * TeV) (270 * TeV))).
  reflexivity.
Defined.

(** ** find_list_idx on groups that follow one another *)

Lemma find_from_cases (gs : SpectrumEnergyGroups) (e : Quantity) :
  forall k, (exists i, find_from k gs e = Ok i)
            \/ find_from k gs e = Raise (IndexError msg_no_group).
Proof.
  induction gs as [| g gs IH]; intros k; simpl.
  - right. reflexivity.
  - destruct (contains_energy g e); [left; eexists; reflexivity | apply IH].
Qed.

Lemma contiguous_later (gs : SpectrumEnergyGroups) :
  forall g0, contiguous_energy (g0 :: gs) ->
    Forall (fun g => energy_min g <= energy_max g) gs ->
    forall g, In g gs -> energy_max g0 <= energy_min g.
Proof.
  induction gs as [| g1 gs IH]; intros g0 Hc Hle g Hin; [destruct Hin|].
  destruct Hc as [Heq Hc]. inversion Hle as [| ? ? H1 Hle']; subst.
  destruct Hin as [<- | Hin]; [lia|].
  specialize (IH g1 Hc Hle' g Hin). lia.
Qed.

Lemma contiguous_covers (gs : SpectrumEnergyGroups) (e : Quantity) :
  forall g0, contiguous_energy (g0 :: gs) ->
    energy_min g0 <= e < energy_max (last gs g0) ->
    exists g, In g (g0 :: gs) /\ contains_energy g e = true.
Proof.
  induction gs as [| g1 gs IH]; intros g0 Hc He.
  - exists g0. split; [left; reflexivity|]. unfold contains_energy.
    apply andb_true_iff. rewrite Z.leb_le, Z.ltb_lt. simpl in He. lia.
  - destruct Hc as [Heq Hc].
    destruct (Z.lt_ge_cases e (energy_max g0)) as [Hlt | Hge].
    + exists g0. split; [left; reflexivity|]. unfold contains_energy.
      apply andb_true_iff. rewrite Z.leb_le, Z.ltb_lt. lia.
    + destruct (IH g1 Hc) as [g [Hin Hg]].
      * replace (last gs g1) with (last (g1 :: gs) g0) by apply last_cons.
        lia.
      * exists g. split; [right; exact Hin | exact Hg].
Qed.

Lemma contiguous_last_max (gs : SpectrumEnergyGroups) :
  forall g0, contiguous_energy (g0 :: gs) ->
    Forall (fun g => energy_min g <= energy_max g) (g0 :: gs) ->
    forall g, In g (g0 :: gs) -> energy_max g <= energy_max (last gs g0).
Proof.
  induction gs as [| g1 gs IH]; intros g0 Hc Hle g Hin.
  - destruct Hin as [<- | []]. simpl. lia.
  - destruct Hc as [Heq Hc]. inversion Hle as [| ? ? H0 Hle']; subst.
    replace (last (g1 :: gs) g0) with (last gs g1) by (symmetry; apply last_cons).
    destruct Hin as [<- | Hin].
    + pose proof (IH g1 Hc Hle' g1 (or_introl eq_refl)).
      inversion Hle'; subst. lia.
    + apply (IH g1 Hc Hle' g Hin).
Qed.

Lemma find_from_unique (gs : SpectrumEnergyGroups) (e : Quantity) :
  forall k i,
    contiguous_energy gs ->
    Forall (fun g => energy_min g <= energy_max g) gs ->
    find_from k gs e = Ok i ->
    forall j g, nth_error gs j = Some g -> contains_energy g e = true ->
      i = (k + j)%nat.
Proof.
  induction gs as [| g0 gs IH]; intros k i Hc Hle Hf j g Hn Hg.
  - destruct j; discriminate Hn.
  - inversion Hle as [| ? ? H0 Hle']; subst. simpl in Hf.
    destruct (contains_energy g0 e) eqn:E0.
    + inversion Hf. subst. destruct j as [| j]; [lia|]. exfalso.
      simpl in Hn. apply nth_error_In in Hn.
      pose proof (contiguous_later gs g0 Hc Hle' g Hn) as Hlater.
      unfold contains_energy in E0, Hg.
      apply andb_true_iff in E0, Hg. lia.
    + destruct j as [| j]; simpl in Hn.
      * inversion Hn. subst. congruence.
      * rewrite (IH (S k) i (proj2 Hc) Hle' Hf j g Hn Hg). lia.
Qed.

(** For groups that follow one another in energy (every group ends where
    the next one starts, none ends below its start), [find_list_idx] finds
    a group exactly for the energies from the first [energy_min] up to, and
    not including, the last [energy_max]; the group it finds is the only one
    that contains the energy. *)
Theorem find_list_idx_contiguous (first : SpectrumEnergyGroup)
    (rest : SpectrumEnergyGroups) (e : Quantity) :
  contiguous_energy (first :: rest) ->
  Forall (fun g => energy_min g <= energy_max g) (first :: rest) ->
  (energy_min first <= e < energy_max (last rest first) ->
     exists i g, find_list_idx (first :: rest) e = Ok i
       /\ nth_error (first :: rest) i = Some g
       /\ contains_energy g e = true
       /\ forall j g', nth_error (first :: rest) j = Some g' ->
            contains_energy g' e = true -> j = i)
  /\ (~ energy_min first <= e < energy_max (last rest first) ->
      find_list_idx (first :: rest) e = Raise (IndexError "No group found with energy")).
Proof.
  intros Hc Hle. unfold find_list_idx. split.
  - intros He. destruct (contiguous_covers rest e first Hc He) as [g [Hin Hg]].
    destruct (find_from_cases (first :: rest) e 0) as [[i Hi] | Hr].
    + pose proof Hi as Hi'. apply find_from_Ok in Hi'.
      destruct Hi' as [j [g' [Hij [Hn [Hg' _]]]]]. simpl in Hij. subst j.
      exists i, g'. repeat split; try assumption.
      intros j g'' Hn'' Hg''.
      rewrite (find_from_unique _ e 0 i Hc Hle Hi j g'' Hn'' Hg''). reflexivity.
    + exfalso. rewrite find_from_Raise in Hr. rewrite (Hr g Hin) in Hg. discriminate.
  - intros He. apply find_from_Raise. intros g Hin.
    unfold contains_energy. apply andb_false_iff. rewrite Z.leb_gt, Z.ltb_ge.
    inversion Hle as [| ? ? H0 Hle']; subst.
    destruct (Z.lt_ge_cases e (energy_min first)) as [Hlo | Hhi].
    + left. destruct Hin as [<- | Hin]; [exact Hlo|].
      pose proof (contiguous_later rest first Hc Hle' g Hin). lia.
    + right. pose proof (contiguous_last_max rest first Hc Hle g Hin). lia.
Qed.

Lemma find_list_idx_contiguous_witness :
  find_list_idx test_groups (270 * TeV) = Ok 3%nat
  /\ find_list_idx test_groups (300 * TeV) = Raise (IndexError "No group found with energy").
Proof.
  assert (contiguous_energy test_groups) as Hc by (simpl; repeat split).
  assert (Forall (fun g => energy_min g <= energy_max g) test_groups) as Hle
    by (repeat constructor; simpl; unfold TeV; lia).
  split.
  - destruct (proj1 (find_list_idx_contiguous _ _ (270 * TeV) Hc Hle))
      as [i [g [Hi [_ [_ Huniq]]]]].
    + simpl. unfold TeV. lia.
    + transitivity (@Ok nat i); [exact Hi|]. f_equal. symmetry.
      apply (Huniq 3%nat (mkSpectrumEnergyGroup 6 27 30 "normal" (270 * TeV) (300 * TeV)));
        reflexivity.
  - apply (proj2 (find_list_idx_contiguous _ _ (300 * TeV) Hc Hle)).
    simpl. unfold TeV. lia.
Defined.

(** ** What from_total_table puts into the groups *)

Lemma Forall2_In_l {A B : Type} (R : A -> B -> Prop) (l : list A) (ys : list B) :
  Forall2 R l ys -> forall x, In x l -> exists y, In y ys /\ R x y.
Proof.
  induction 1 as [| x0 y0 l ys H0 _ IH]; intros x Hx; [destruct Hx|].
  destruct Hx as [<- | Hx].
  - exists y0. split; [left; reflexivity | exact H0].
  - destruct (IH x Hx) as [y [Hy Hxy]]. exists y. split; [right; exact Hy | exact Hxy].
Qed.

Lemma Forall2_In_r {A B : Type} (R : A -> B -> Prop) (l : list A) (ys : list B) :
  Forall2 R l ys -> forall y, In y ys -> exists x, In x l /\ R x y.
Proof.
  induction 1 as [| x0 y0 l ys H0 _ IH]; intros y Hy; [destruct Hy|].
  destruct Hy as [<- | Hy].
  - exists x0. split; [left; reflexivity | exact H0].
  - destruct (IH y Hy) as [x [Hx Hxy]]. exists x. split; [right; exact Hx | exact Hxy].
Qed.

Lemma group_of_rows_Ok (table : Table) (idx : Z) (g : SpectrumEnergyGroup) :
  In idx (np.unique (map row_energy_group_idx table)) ->
  group_of_rows table idx = Ok g ->
  exists r rest,
    select table idx = r :: rest
    /\ g = mkSpectrumEnergyGroup idx (row_bin_idx r) (row_bin_idx (last rest r))
             (row_bin_type r) (row_energy_min r) (row_energy_max (last rest r))
    /\ In (row_bin_type r) valid_bin_types
    /\ forall r', In r' (r :: rest) -> row_bin_type r' = row_bin_type r.
Proof.
  intros Hin Hg. destruct (select_nonempty table idx Hin) as [r [rest E]].
  exists r, rest. split; [exact E|].
  rewrite (group_of_rows_nonempty table idx r rest E) in Hg.
  rewrite last_cons in Hg.
  destruct (1 <? Z.of_nat (List.length (py_set (map row_bin_type (r :: rest))))) eqn:C;
    [discriminate|].
  apply Z.ltb_ge in C.
  destruct (in_dec string_dec (row_bin_type r) valid_bin_types) as [Hv | Hv].
  - rewrite (init_valid _ _ _ _ _ _ Hv) in Hg. inversion Hg. subst g.
    split; [reflexivity|]. split; [exact Hv|].
    intros r' Hr'. destruct (string_dec (row_bin_type r') (row_bin_type r)) as [Heq | Hne];
      [exact Heq|].
    exfalso. assert (1 < Z.of_nat (List.length (py_set (map row_bin_type (r :: rest))))) as Hgt.
    { apply py_set_gt1. exists (row_bin_type r'), (row_bin_type r).
      split; [apply in_map; exact Hr'|]. split; [left; reflexivity | exact Hne]. }
    lia.
  - rewrite (init_invalid _ _ _ _ _ _ Hv) in Hg. discriminate.
Qed.

(** When [from_total_table] returns, every row of the table belongs to a
    returned group with the row's [energy_group_idx] and the row's
    [bin_type], and every returned group has a valid bin type and at least
    one row. *)
Theorem from_total_table_covers_rows (table : Table) (groups : SpectrumEnergyGroups) :
  from_total_table table = Ok groups ->
  (forall r, In r table ->
     exists g, In g groups
       /\ energy_group_idx g = row_energy_group_idx r
       /\ bin_type g = row_bin_type r)
  /\ (forall g, In g groups ->
        valid_bin_type g
        /\ exists r, In r table /\ row_energy_group_idx r = energy_group_idx g).
Proof.
  intros H. apply for_each_Ok in H. split.
  - intros r Hr.
    assert (In (row_energy_group_idx r) (np.unique (map row_energy_group_idx table))) as Hin
      by (apply unique_In; apply in_map; exact Hr).
    destruct (Forall2_In_l _ _ _ H _ Hin) as [g [Hg Hgr]].
    destruct (group_of_rows_Ok _ _ _ Hin Hgr) as [r0 [rest [E [-> [_ Hsame]]]]].
    exists (mkSpectrumEnergyGroup (row_energy_group_idx r) (row_bin_idx r0)
              (row_bin_idx (last rest r0)) (row_bin_type r0) (row_energy_min r0)
              (row_energy_max (last rest r0))).
    split; [exact Hg|]. split; [reflexivity|]. simpl. symmetry. apply Hsame.
    rewrite <- E. apply select_In. auto.
  - intros g Hg. destruct (Forall2_In_r _ _ _ H _ Hg) as [idx [Hin Hgr]].
    destruct (group_of_rows_Ok _ _ _ Hin Hgr) as [r0 [rest [E [-> [Hv _]]]]].
    split; [exact Hv|]. exists r0. simpl.
    apply select_In. rewrite E. left. reflexivity.
Qed.

Lemma from_total_table_covers_rows_witness :
  exists groups,
    from_total_table table_unordered = Ok groups
    /\ exists g, In g groups /\ energy_group_idx g = 1 /\ bin_type g = "normal".
Proof.
  eexists. split; [reflexivity|].
  apply (proj1 (from_total_table_covers_rows table_unordered _ eq_refl)
               (mkRow 5 1 "normal" (5 * TeV) (6 * TeV))).
  simpl. auto.
Defined.

(** The bin range and the energies of a returned group are read from the
    first and the last row of the group in the order of the table:
    [bin_idx_min] and [energy_min] from the first row, [bin_idx_max] and
    [energy_max] from the last one.  The rows are not sorted by [bin_idx]. *)
Theorem from_total_table_first_last (table : Table) (groups : SpectrumEnergyGroups) :
  from_total_table table = Ok groups ->
  forall g, In g groups ->
    exists r rest,
      select table (energy_group_idx g) = r :: rest
      /\ bin_idx_min g = row_bin_idx r
      /\ energy_min g = row_energy_min r
      /\ bin_idx_max g = row_bin_idx (last rest r)
      /\ energy_max g = row_energy_max (last rest r).
Proof.
  intros H g Hg. apply for_each_Ok in H.
  destruct (Forall2_In_r _ _ _ H _ Hg) as [idx [Hin Hgr]].
  destruct (group_of_rows_Ok _ _ _ Hin Hgr) as [r0 [rest [E [-> _]]]].
  exists r0, rest. simpl. auto.
Qed.

Lemma from_total_table_first_last_witness :
  exists g,
    from_total_table [ mkRow 4 0 "normal" (4 * TeV) (5 * TeV);
                       mkRow 3 0 "normal" (3 * TeV) (4 * TeV) ] = Ok [g]
    /\ bin_idx_min g = 4 /\ bin_idx_max g = 3.
Proof.
  eexists. split; [reflexivity|].
  destruct (from_total_table_first_last
              [ mkRow 4 0 "normal" (4 * TeV) (5 * TeV);
                mkRow 3 0 "normal" (3 * TeV) (4 * TeV) ] _ eq_refl _ (or_introl eq_refl))
    as [r [rest [E [Hmin [_ [Hmax _]]]]]].
  vm_compute in E. inversion E. subst. split; assumption.
Defined.

(** ** Groups without bins in the table with one bin per row *)






(** ** Indexing within range *)

Lemma getitem_in_range {A : Type} (l : list A) (i : Z) :
  - Z.of_nat (List.length l) <= i < Z.of_nat (List.length l) ->
  exists x, np.getitem l i = Ok x.
Proof.
  intros H. unfold np.getitem. cbv zeta.
  set (j := if i <? 0 then i + Z.of_nat (List.length l) else i).
  assert (0 <= j < Z.of_nat (List.length l)) as Hj
    by (unfold j; destruct (Z.ltb_spec i 0); lia).
  replace ((0 <=? j) && (j <? Z.of_nat (List.length l))) with true
    by (symmetry; apply andb_true_iff; rewrite Z.leb_le, Z.ltb_lt; exact Hj).
  destruct (nth_error l (Z.to_nat j)) as [x |] eqn:E; [exists x; reflexivity|].
  apply nth_error_None in E. lia.
Qed.

Lemma getitem_Ok {A : Type} (l : list A) (i : Z) (x : A) :
  np.getitem l i = Ok x ->
  - Z.of_nat (List.length l) <= i < Z.of_nat (List.length l)
  /\ nth_error l (Z.to_nat (if i <? 0 then i + Z.of_nat (List.length l) else i)) = Some x.
Proof.
  unfold np.getitem. cbv zeta.
  set (j := if i <? 0 then i + Z.of_nat (List.length l) else i).
  destruct ((0 <=? j) && (j <? Z.of_nat (List.length l))) eqn:C; [|discriminate].
  apply andb_true_iff in C. rewrite Z.leb_le, Z.ltb_lt in C.
  destruct (nth_error l (Z.to_nat j)) as [y |] eqn:E; [|discriminate].
  intros H. inversion H. subst y. split; [|reflexivity].
  unfold j in C. destruct (Z.ltb_spec i 0); lia.
Qed.

Lemma getitem_In {A : Type} (l : list A) (i : Z) (x : A) :
  np.getitem l i = Ok x -> In x l.
Proof.
  intros H. apply getitem_Ok in H. destruct H as [_ H].
  apply nth_error_In in H. exact H.
Qed.

Lemma getitem_front {A : Type} (front rest : list A) (i : Z) (x : A) :
  0 <= i < Z.of_nat (List.length front) ->
  np.getitem (front ++ rest) i = Ok x -> In x front.
Proof.
  intros Hi H. apply getitem_Ok in H. destruct H as [_ H].
  destruct (Z.ltb_spec i 0); [lia|].
  rewrite nth_error_app1 in H by lia. apply nth_error_In in H. exact H.
Qed.

Lemma getitem_neg1 {A : Type} (l : list A) :
  np.getitem l (-1) = np.getitem l (Z.of_nat (List.length l) - 1).
Proof.
  destruct l as [| x l]; [rewrite !getitem_empty; reflexivity|].
  unfold np.getitem. cbv zeta. change (-1 <? 0) with true. cbv iota.
  destruct (Z.ltb_spec (Z.of_nat (List.length (x :: l)) - 1) 0) as [H | H].
  - simpl List.length in H. lia.
  - replace (-1 + Z.of_nat (List.length (x :: l)))
      with (Z.of_nat (List.length (x :: l)) - 1) by lia.
    reflexivity.
Qed.

Lemma setitem_last {A : Type} (front : list A) (y v : A) :
  np.setitem (front ++ [y]) (-1) v = Ok (front ++ [v]).
Proof.
  unfold np.setitem. cbv zeta. change (-1 <? 0) with true. cbv iota.
  rewrite length_app. simpl List.length.
  replace (-1 + Z.of_nat (List.length front + 1)) with (Z.of_nat (List.length front)) by lia.
  replace ((0 <=? Z.of_nat (List.length front))
           && (Z.of_nat (List.length front) <? Z.of_nat (List.length front + 1))) with true
    by (symmetry; apply andb_true_iff; rewrite Z.leb_le, Z.ltb_lt; lia).
  rewrite Nat2Z.id. f_equal.
  induction front as [| a front IH]; [reflexivity|].
  simpl. f_equal. exact IH.
Qed.

(** ** np.argmin *)

Lemma argmin_from_bounds (l : list Z) :
  forall best_i best i,
    0 <= best_i < i ->
    0 <= np.argmin_from best_i best i l < i + Z.of_nat (List.length l).
Proof.
  induction l as [| x l IH]; intros best_i best i H; simpl np.argmin_from.
  - simpl. lia.
  - destruct (x <? best).
    + specialize (IH i x (i + 1) ltac:(lia)). simpl List.length. lia.
    + specialize (IH best_i best (i + 1) ltac:(lia)). simpl List.length. lia.
Qed.

Lemma argmin_bounds (l : list Z) :
  l <> [] ->
  exists i, np.argmin l = Ok i /\ 0 <= i < Z.of_nat (List.length l).
Proof.
  destruct l as [| x l]; [contradiction|]. intros _.
  eexists. split; [reflexivity|].
  pose proof (argmin_from_bounds l 0 x 1 ltac:(lia)). simpl List.length. lia.
Qed.

Lemma argmin_rows (rows : list (list Z)) (n : nat) :
  (0 < n)%nat ->
  Forall (fun row => List.length row = n) rows ->
  exists li,
    np.argmin_axis1 n rows = Ok li
    /\ List.length li = List.length rows
    /\ Forall (fun v => 0 <= v < Z.of_nat n) li.
Proof.
  intros Hn Hrows. unfold np.argmin_axis1.
  destruct n as [| n']; [lia|]. remember (S n') as n.
  induction Hrows as [| row rows Hrow _ IH].
  - exists []. repeat split. constructor.
  - destruct IH as [li [Hli [Hlen Hall]]].
    destruct (argmin_bounds row) as [i [Hi Hb]].
    { intros ->. simpl in Hrow. lia. }
    exists (i :: li). simpl. rewrite Hi, Hli. simpl.
    split; [reflexivity|]. split; [f_equal; exact Hlen|].
    constructor; [rewrite Hrow in Hb; exact Hb | exact Hall].
Qed.

(** ** Groups chained by their bin indices *)

Lemma chained_app (gs1 gs2 : SpectrumEnergyGroups) :
  forall a k b c,
    chained a k gs1 b ->
    chained b (k + Z.of_nat (List.length gs1)) gs2 c ->
    chained a k (gs1 ++ gs2) c.
Proof.
  induction gs1 as [| g gs1 IH]; intros a k b c H1 H2; simpl in *.
  - subst. replace (k + 0) with k in H2 by lia. exact H2.
  - destruct H1 as [Hmin [Hidx H1]]. split; [exact Hmin|]. split; [exact Hidx|].
    apply (IH _ _ b); [exact H1|].
    replace (k + 1 + Z.of_nat (List.length gs1))
      with (k + Z.pos (Pos.of_succ_nat (List.length gs1))) by lia.
    exact H2.
Qed.

Lemma chained_idx (gs : SpectrumEnergyGroups) :
  forall a k b, chained a k gs b ->
    map energy_group_idx gs = np.arange k (k + Z.of_nat (List.length gs)).
Proof.
  induction gs as [| g gs IH]; intros a k b H; simpl in H.
  - simpl. unfold np.arange. replace (k + 0 - k) with 0 by lia. reflexivity.
  - destruct H as [_ [Hidx H]].
    rewrite arange_cons by (simpl List.length; lia).
    simpl map. f_equal; [exact Hidx|].
    rewrite (IH _ _ _ H). f_equal. simpl List.length. lia.
Qed.



(** ** The loops of compute_groups_fixed *)

Section FixedGroups.

Variable eb : EnergyBounds.
Hypothesis Hbins : lower_bounds eb <> [].
Hypothesis Hupper : List.length (upper_bounds eb) = List.length (lower_bounds eb).

Lemma nbins_pos : 0 < nbins eb.
Proof using Hbins.
  clear Hupper. unfold nbins.
  assert (List.length (lower_bounds eb) <> 0%nat) as H
    by (intros H; apply length_zero_iff_nil in H; contradiction).
  lia.
Qed.

Lemma lower_in_range (i : Z) :
  0 <= i < nbins eb -> exists x, np.getitem (lower_bounds eb) i = Ok x.
Proof using Type.
  clear Hbins Hupper. intros H. apply getitem_in_range. unfold nbins in H. lia.
Qed.

Lemma upper_in_range (i : Z) :
  -1 <= i < nbins eb -> exists x, np.getitem (upper_bounds eb) i = Ok x.
Proof using Hbins Hupper.
  intros H. apply getitem_in_range. rewrite Hupper.
  pose proof nbins_pos. unfold nbins in *. lia.
Qed.

(** The loop over the pairs of located boundaries [a], ..., [a + m - 1]:
    it appends [m] normal groups, numbered from [k], whose bin ranges go
    from the boundary located for [a] to the one located for [a + m]. *)
Lemma normal_groups_run (li : list Z) :
  forall (m : nat) (a : Z) (groups : list SpectrumEnergyGroup) (k v_a : Z),
    np.getitem li a = Ok v_a ->
    (forall j, a <= j < a + Z.of_nat m ->
       exists lo hi, np.getitem li j = Ok lo /\ np.getitem li (j + 1) = Ok hi
         /\ 0 <= lo < nbins eb /\ 0 <= hi <= nbins eb) ->
    exists new v_b,
      normal_groups eb li (np.arange a (a + Z.of_nat m)) groups k
      = Ok (groups ++ new, k + Z.of_nat m)
      /\ np.getitem li (a + Z.of_nat m) = Ok v_b
      /\ chained v_a k new v_b
      /\ Forall (edges_of_bins eb) new
      /\ Forall (fun g => bin_type g = "normal") new
      /\ List.length new = m
      /\ forall j g, nth_error new j = Some g ->
           np.getitem li (a + Z.of_nat j) = Ok (bin_idx_min g)
           /\ np.getitem li (a + Z.of_nat j + 1) = Ok (bin_idx_max g + 1).
Proof using Hbins Hupper.
  induction m as [| m IH]; intros a groups k v_a Ha Hrange.
  - exists [], v_a. unfold np.arange.
    replace (a + Z.of_nat 0 - a) with 0 by lia. simpl.
    rewrite app_nil_r. replace (k + 0) with k by lia. replace (a + 0) with a by lia.
    repeat split; auto; destruct j; discriminate.
  - rewrite arange_cons by lia.
    replace (a + Z.of_nat (S m)) with (a + 1 + Z.of_nat m) by lia.
    destruct (Hrange a ltac:(lia)) as [lo [hi [Hlo [Hhi [Rlo Rhi]]]]].
    assert (lo = v_a) as -> by congruence.
    destruct (lower_in_range v_a Rlo) as [e_min Hmin].
    destruct (upper_in_range (hi - 1) ltac:(lia)) as [e_max Hmax].
    destruct (IH (a + 1) (groups ++ [mkSpectrumEnergyGroup k v_a (hi - 1) "normal" e_min e_max])
                 (k + 1) hi Hhi) as [new [v_b [Hrun [Hb [Ht [He [Hn [Hl Hpos]]]]]]]].
    { intros j Hj. apply Hrange. lia. }
    exists (mkSpectrumEnergyGroup k v_a (hi - 1) "normal" e_min e_max :: new), v_b.
    split; [|split; [exact Hb | split; [|split; [|split; [|split]]]]].
    + cbn [normal_groups]. rewrite Hlo, Hhi. cbn [bind]. rewrite Hmin, Hmax. cbn [bind].
      rewrite init_valid by (simpl; auto). cbn [bind].
      rewrite Hrun. rewrite <- app_assoc. simpl. do 2 f_equal. lia.
    + simpl. split; [reflexivity|]. split; [reflexivity|].
      replace (hi - 1 + 1) with hi by lia. exact Ht.
    + constructor; [|exact He]. split; simpl; assumption.
    + constructor; [reflexivity | exact Hn].
    + simpl. f_equal. exact Hl.
    + intros [| j] g Hg; simpl in Hg.
      * inversion Hg. subst g. simpl.
        replace (a + 0) with a by lia. replace (hi - 1 + 1) with hi by lia. auto.
      * replace (a + Z.of_nat (S j)) with (a + 1 + Z.of_nat j) by lia.
        apply Hpos. exact Hg.
Qed.

End FixedGroups.

Lemma located_rows (lower ebounds : list Quantity) :
  Forall (fun row => List.length row = List.length lower)
    (map (map np.sign)
       (map (fun e => map (fun lo => e - lo) lower)
          (map (fun e => e - 1 * MeV) ebounds))).
Proof.
  apply Forall_forall. intros row Hrow.
  apply in_map_iff in Hrow. destruct Hrow as [r1 [<- Hr1]].
  apply in_map_iff in Hr1. destruct Hr1 as [e [<- _]].
  rewrite !length_map. reflexivity.
Qed.

(** ** The sign search *)

Ltac sign_of t :=
  first [ rewrite (Z.sgn_neg t) by lia
        | rewrite (Z.sgn_pos t) by lia
        | rewrite (Z.sgn_null t) by lia ].

Lemma argmin_from_sign (x : Z) (lower : list Z) :
  forall b best_i i,
    np.argmin_from best_i (np.sign (x - b)) i (map np.sign (map (fun lo => x - lo) lower))
    = if x <? b then best_i
      else match find_first (fun lo => x <? lo) lower i with
           | Some k => k
           | None =>
               if x =? b then best_i
               else match find_first (fun lo => lo =? x) lower i with
                    | Some k => k
                    | None => best_i
                    end
           end.
Proof.
  induction lower as [| lo lower IH]; intros b best_i i.
  - simpl. destruct (x <? b), (x =? b); reflexivity.
  - cbn [map np.argmin_from find_first].
    rewrite (IH lo i (i + 1)), (IH b best_i (i + 1)). unfold np.sign.
    destruct (Z.ltb_spec x lo), (Z.eqb_spec lo x), (Z.ltb_spec x b), (Z.eqb_spec x b);
      try lia; sign_of (x - lo); sign_of (x - b); simpl;
      try reflexivity;
      try (destruct (Z.eqb_spec x lo); [reflexivity | lia]).
Qed.

Lemma argmin_located (lower : list Quantity) (e : Quantity) :
  lower <> [] ->
  np.argmin (map np.sign (map (fun lo => e - 1 * MeV - lo) lower)) = Ok (located lower e).
Proof.
  destruct lower as [| b rest]; [contradiction|]. intros _.
  cbn [map np.argmin]. rewrite argmin_from_sign. unfold located. cbn [find_first].
  change (0 + 1) with 1.
  destruct (Z.ltb_spec (e - 1 * MeV) b), (Z.eqb_spec (e - 1 * MeV) b),
           (Z.eqb_spec b (e - 1 * MeV)); try lia; try reflexivity.
Qed.

Lemma argmin_axis1_located (lower ebounds : list Quantity) :
  lower <> [] ->
  np.argmin_axis1 (List.length lower)
    (map (map np.sign)
       (map (fun e => map (fun lo => e - lo) lower)
          (map (fun e => e - 1 * MeV) ebounds)))
  = Ok (map (located lower) ebounds).
Proof.
  intros Hne. unfold np.argmin_axis1.
  destruct (List.length lower) eqn:E;
    [apply length_zero_iff_nil in E; contradiction|].
  induction ebounds as [| e ebounds IH]; [reflexivity|].
  cbn [map for_each]. rewrite (argmin_located lower e Hne), IH. reflexivity.
Qed.

Lemma getitem_nth {A : Type} (l : list A) (i : Z) (x : A) :
  0 <= i -> np.getitem l i = Ok x -> nth_error l (Z.to_nat i) = Some x.
Proof.
  intros Hi H. apply getitem_Ok in H. destruct H as [_ H].
  destruct (Z.ltb_spec i 0); [lia | exact H].
Qed.

(** The groups of [compute_groups_fixed] for an observation with at least
    one bin and at least one boundary: at most one underflow group, one
    normal group per pair of boundaries that follow one another, at most
    one overflow group. *)
Lemma compute_groups_fixed_structure (obs : SpectrumObservation) (ebounds : list Quantity) :
  lower_bounds (e_reco obs) <> [] ->
  List.length (upper_bounds (e_reco obs)) = List.length (lower_bounds (e_reco obs)) ->
  ebounds <> [] ->
  exists under normals over,
    compute_groups_fixed obs ebounds = Ok (under ++ normals ++ over)
    /\ chained 0 0 (under ++ normals ++ over) (nbins (e_reco obs))
    /\ Forall (edges_of_bins (e_reco obs)) (under ++ normals ++ over)
    /\ S (List.length normals) = List.length ebounds
    /\ Forall (fun g => bin_type g = "normal") normals
    /\ (under = [] \/ exists g, under = [g] /\ bin_type g = "underflow")
    /\ (over = [] \/ exists g, over = [g] /\ bin_type g = "overflow")
    /\ (forall j g, nth_error normals j = Some g ->
          exists e e',
            nth_error ebounds j = Some e /\ nth_error ebounds (S j) = Some e'
            /\ bin_idx_min g = located (lower_bounds (e_reco obs)) e
            /\ bin_idx_max g + 1
               = if Nat.eqb (S (S j)) (List.length ebounds)
                    && (located (lower_bounds (e_reco obs)) e' =? 0)
                 then nbins (e_reco obs)
                 else located (lower_bounds (e_reco obs)) e').
Proof.
  intros Hbins Hupper Hne.
  set (eb := e_reco obs) in *.
  pose proof (nbins_pos eb Hbins) as Hpos.
  unfold compute_groups_fixed. cbv zeta. fold eb.
  (* the located boundaries *)
  destruct (argmin_rows _ (List.length (lower_bounds eb))
              ltac:(unfold nbins in Hpos; lia)
              (located_rows (lower_bounds eb) ebounds))
    as [li0 [Hli0 [Hlen0 Hall0]]].
  rewrite Hli0. cbn [bind]. rewrite !length_map in Hlen0.
  assert (li0 = map (located (lower_bounds eb)) ebounds) as Hloc
    by (pose proof (argmin_axis1_located (lower_bounds eb) ebounds Hbins); congruence).
  assert (li0 <> []) as Hne0
    by (intros ->; destruct ebounds; [contradiction | discriminate Hlen0]).
  destruct (exists_last Hne0) as [front [l Hli0eq]].
  rewrite Hli0eq in Hloc, Hlen0, Hall0 |- *. clear Hne0 Hli0 Hli0eq li0.
  rewrite getitem_last. cbn [bind].
  apply Forall_app in Hall0. destruct Hall0 as [Hfront Hl].
  inversion Hl as [| ? ? Hl' _]; subst. clear Hl. fold (nbins eb) in Hfront, Hl'.
  rewrite length_app in Hlen0. simpl in Hlen0.
  set (l' := if l =? 0 then nbins eb else l).
  assert ((if l =? 0 then np.setitem (front ++ [l]) (-1) (nbins eb) else Ok (front ++ [l]))
          = Ok (front ++ [l'])) as ->
    by (unfold l'; destruct (l =? 0); [apply setitem_last | reflexivity]).
  cbn [bind].
  assert (0 < l' <= nbins eb) as Hl'r
    by (unfold l'; destruct (Z.eqb_spec l 0); lia).
  assert (l' = if l =? 0 then nbins eb else l) as Hl'def by reflexivity.
  clearbody l'.
  set (li := front ++ [l']) in *.
  assert (Forall (fun v => 0 <= v <= nbins eb) li) as Hall.
  { apply Forall_app. split; [|constructor; [lia | constructor]].
    eapply Forall_impl; [|exact Hfront]. simpl. intros; lia. }
  assert (List.length li = S (List.length front)) as Hlenli
    by (unfold li; rewrite length_app; simpl; lia).
  (* the first boundary and the underflow group *)
  destruct (getitem_in_range li 0 ltac:(lia)) as [first Hfirst].
  rewrite Hfirst. cbn [bind].
  assert (0 <= first <= nbins eb) as Hfr
    by (rewrite Forall_forall in Hall; apply Hall; eapply getitem_In; exact Hfirst).
  destruct (lower_in_range eb 0 ltac:(lia)) as [e0 He0].
  destruct (upper_in_range eb Hbins Hupper (first - 1) ltac:(lia)) as [e1 He1].
  set (u := mkSpectrumEnergyGroup 0 0 (first - 1) "underflow" e0 e1).
  set (under := if first >? 0 then [u] else []).
  assert ((if first >? 0
           then e_min <- np.getitem (lower_bounds eb) 0 ;;
                e_max <- np.getitem (upper_bounds eb) (first - 1) ;;
                group <- init 0 0 (first - 1) "underflow" e_min e_max ;;
                Ok ([] ++ [group], 0 + 1)
           else Ok ([], 0))
          = Ok (under, Z.of_nat (List.length under))) as ->.
  { unfold under. destruct (first >? 0); [|reflexivity].
    rewrite He0, He1. cbn [bind]. rewrite init_valid by (simpl; auto). reflexivity. }
  cbn [bind fst snd].
  assert (chained 0 0 under first) as Htu.
  { unfold under. destruct (Z.gtb_spec first 0); simpl.
    - repeat split. lia.
    - lia. }
  (* the normal groups *)
  destruct (normal_groups_run eb Hbins Hupper li (List.length front) 0 under
              (Z.of_nat (List.length under)) first Hfirst)
    as [new [v_b [Hrun [Hb [Htn [Hen [Hnn [Hln Hat]]]]]]]].
  { intros j Hj.
    destruct (getitem_in_range li j ltac:(lia)) as [lo Hlo].
    destruct (getitem_in_range li (j + 1) ltac:(lia)) as [hi Hhi].
    exists lo, hi. split; [exact Hlo|]. split; [exact Hhi|]. split.
    - rewrite Forall_forall in Hfront. apply Hfront.
      apply (getitem_front front [l'] j); [lia | exact Hlo].
    - rewrite Forall_forall in Hall. apply Hall. eapply getitem_In. exact Hhi. }
  replace (Z.of_nat (List.length ebounds) - 1) with (0 + Z.of_nat (List.length front))
    by (clear - Hlen0; unfold Quantity in *; lia).
  rewrite Hrun. cbn [bind fst snd].
  assert (np.getitem li (-1) = Ok l') as Hlast by (unfold li; apply getitem_last).
  assert (v_b = l') as ->.
  { rewrite getitem_neg1 in Hlast.
    replace (Z.of_nat (List.length li) - 1) with (0 + Z.of_nat (List.length front)) in Hlast
      by (clear - Hlenli; lia).
    congruence. }
  rewrite Hlast. cbn [bind].
  (* where the normal groups start and end *)
  assert (forall j g, nth_error new j = Some g ->
            exists e e',
              nth_error ebounds j = Some e /\ nth_error ebounds (S j) = Some e'
              /\ bin_idx_min g = located (lower_bounds eb) e
              /\ bin_idx_max g + 1
                 = if Nat.eqb (S (S j)) (List.length ebounds)
                      && (located (lower_bounds eb) e' =? 0)
                   then nbins eb
                   else located (lower_bounds eb) e') as Hwhere.
  { intros j g Hg.
    assert (j < List.length front)%nat as Hj
      by (rewrite <- Hln; apply nth_error_Some; congruence).
    destruct (Hat j g Hg) as [Hmin Hmax].
    apply getitem_nth in Hmin; [|lia]. apply getitem_nth in Hmax; [|lia].
    replace (Z.to_nat (0 + Z.of_nat j)) with j in Hmin by lia.
    replace (Z.to_nat (0 + Z.of_nat j + 1)) with (S j) in Hmax by lia.
    unfold li in Hmin, Hmax.
    rewrite nth_error_app1 in Hmin by exact Hj.
    assert (nth_error (map (located (lower_bounds eb)) ebounds) j = Some (bin_idx_min g))
      as Hmin' by (rewrite <- Hloc; rewrite nth_error_app1 by exact Hj; exact Hmin).
    rewrite nth_error_map in Hmin'.
    destruct (nth_error ebounds j) as [e |] eqn:Ee; [|discriminate Hmin'].
    simpl in Hmin'. inversion Hmin' as [Hmin'']. 
    destruct (Nat.eq_dec (S j) (List.length front)) as [Elast | Enot].
    - (* the last normal group ends at the last boundary *)
      rewrite Elast in Hmax. rewrite nth_error_app2 in Hmax by lia.
      rewrite Nat.sub_diag in Hmax. simpl in Hmax. inversion Hmax as [Hmax'].
      assert (nth_error (map (located (lower_bounds eb)) ebounds) (S j) = Some l) as Hl0.
      { rewrite <- Hloc, Elast, nth_error_app2 by lia.
        rewrite Nat.sub_diag. reflexivity. }
      rewrite nth_error_map in Hl0.
      destruct (nth_error ebounds (S j)) as [e' |] eqn:Ee'; [|discriminate Hl0].
      simpl in Hl0. inversion Hl0 as [Hl0'].
      exists e, e'. split; [reflexivity|]. split; [reflexivity|].
      split; [reflexivity|].
      replace (Nat.eqb (S (S j)) (List.length ebounds)) with true
        by (symmetry; apply Nat.eqb_eq; clear - Elast Hlen0; unfold Quantity in *; lia).
      simpl andb. rewrite Hl0', <- Hmax'. exact Hl'def.
    - rewrite nth_error_app1 in Hmax by lia.
      assert (nth_error (map (located (lower_bounds eb)) ebounds) (S j)
              = Some (bin_idx_max g + 1)) as Hmax'
        by (rewrite <- Hloc; rewrite nth_error_app1 by lia; exact Hmax).
      rewrite nth_error_map in Hmax'.
      destruct (nth_error ebounds (S j)) as [e' |] eqn:Ee'; [|discriminate Hmax'].
      simpl in Hmax'. inversion Hmax' as [Hmax''].
      exists e, e'. split; [reflexivity|]. split; [reflexivity|].
      split; [reflexivity|].
      replace (Nat.eqb (S (S j)) (List.length ebounds)) with false
        by (symmetry; apply Nat.eqb_neq; clear - Enot Hlen0; unfold Quantity in *; lia).
      reflexivity. }
  (* the overflow group *)
  destruct (upper_in_range eb Hbins Hupper (-1) ltac:(lia)) as [e3 He3].
  destruct (Z.ltb_spec l' (nbins eb)) as [Hlt | Hge].
  - destruct (lower_in_range eb l' ltac:(lia)) as [e2 He2].
    rewrite He2, He3. cbn [bind]. rewrite init_valid by (simpl; auto 6). cbn [bind].
    set (o := mkSpectrumEnergyGroup (Z.of_nat (List.length under) + Z.of_nat (List.length front))
                l' (nbins eb - 1) "overflow" e2 e3).
    exists under, new, [o]. rewrite <- app_assoc.
    split; [reflexivity|]. split; [|split; [|split; [|split; [|split; [|split]]]]].
    + apply (chained_app under _ 0 0 first); [exact Htu|].
      apply (chained_app new _ first _ l'); [exact Htn|].
      simpl. rewrite Hln. repeat split. lia.
    + apply Forall_app. split.
      * unfold under. destruct (first >? 0); constructor; [|constructor].
        split; simpl; assumption.
      * apply Forall_app. split; [exact Hen|]. constructor; [|constructor].
        split; simpl; [exact He2|].
        rewrite getitem_neg1, Hupper in He3. exact He3.
    + rewrite Hln. clear - Hlen0. unfold Quantity in *. lia.
    + exact Hnn.
    + unfold under. destruct (first >? 0); [right; exists u; auto | left; reflexivity].
    + right. exists o. auto.
    + exact Hwhere.
  - exists under, new, []. rewrite app_nil_r.
    split; [reflexivity|]. split; [|split; [|split; [|split; [|split; [|split]]]]].
    + apply (chained_app under _ 0 0 first); [exact Htu|].
      replace (nbins eb) with l' by lia. exact Htn.
    + apply Forall_app. split; [|exact Hen].
      unfold under. destruct (first >? 0); constructor; [|constructor].
      split; simpl; assumption.
    + rewrite Hln. clear - Hlen0. unfold Quantity in *. lia.
    + exact Hnn.
    + unfold under. destruct (first >? 0); [right; exists u; auto | left; reflexivity].
    + left. reflexivity.
    + exact Hwhere.
Qed.

Lemma compute_groups_fixed_no_boundary (obs : SpectrumObservation) :
  lower_bounds (e_reco obs) <> [] ->
  exists msg, compute_groups_fixed obs [] = Raise (IndexError msg).
Proof.
  intros Hbins. unfold compute_groups_fixed. cbv zeta.
  destruct (lower_bounds (e_reco obs)) as [| lo los]; [contradiction|].
  eexists. reflexivity.
Qed.

Lemma compute_groups_fixed_Ok (obs : SpectrumObservation) (ebounds : list Quantity)
    (groups : SpectrumEnergyGroups) :
  lower_bounds (e_reco obs) <> [] ->
  List.length (upper_bounds (e_reco obs)) = List.length (lower_bounds (e_reco obs)) ->
  compute_groups_fixed obs ebounds = Ok groups ->
  exists under normals over,
    groups = under ++ normals ++ over
    /\ chained 0 0 groups (nbins (e_reco obs))
    /\ Forall (edges_of_bins (e_reco obs)) groups
    /\ S (List.length normals) = List.length ebounds
    /\ Forall (fun g => bin_type g = "normal") normals
    /\ (under = [] \/ exists g, under = [g] /\ bin_type g = "underflow")
    /\ (over = [] \/ exists g, over = [g] /\ bin_type g = "overflow")
    /\ (forall j g, nth_error normals j = Some g ->
          exists e e',
            nth_error ebounds j = Some e /\ nth_error ebounds (S j) = Some e'
            /\ bin_idx_min g = located (lower_bounds (e_reco obs)) e
            /\ bin_idx_max g + 1
               = if Nat.eqb (S (S j)) (List.length ebounds)
                    && (located (lower_bounds (e_reco obs)) e' =? 0)
                 then nbins (e_reco obs)
                 else located (lower_bounds (e_reco obs)) e').
Proof.
  intros Hbins Hupper Hrun.
  assert (ebounds <> []) as Hne.
  { intros ->. destruct (compute_groups_fixed_no_boundary obs Hbins) as [msg E].
    congruence. }
  destruct (compute_groups_fixed_structure obs ebounds Hbins Hupper Hne)
    as [under [normals [over [Hrun' H]]]].
  assert (groups = under ++ normals ++ over) as -> by congruence.
  exists under, normals, over. split; [reflexivity | exact H].
Qed.

(** ** SpectrumEnergyGroupMaker.compute_groups_fixed, for every input *)

(** For an observation with at least one bin (and as many upper as lower
    bin edges) and at least one boundary, [compute_groups_fixed] raises
    nothing, wherever the boundaries lie and in whatever order they are
    given, and returns at least one group. *)
Theorem compute_groups_fixed_returns (obs : SpectrumObservation) (ebounds : list Quantity) :
  lower_bounds (e_reco obs) <> [] ->
  List.length (upper_bounds (e_reco obs)) = List.length (lower_bounds (e_reco obs)) ->
  ebounds <> [] ->
  exists groups, compute_groups_fixed obs ebounds = Ok groups /\ groups <> [].
Proof.
  intros Hbins Hupper Hne.
  destruct (compute_groups_fixed_structure obs ebounds Hbins Hupper Hne)
    as [under [normals [over [Hrun [Ht _]]]]].
  eexists. split; [exact Hrun|].
  intros E. rewrite E in Ht. simpl in Ht.
  pose proof (nbins_pos _ Hbins). lia.
Qed.

Lemma compute_groups_fixed_returns_witness :
  exists groups,
    compute_groups_fixed obs_1_10 [100 * TeV; -1 * TeV; 6 * TeV; 6 * TeV] = Ok groups
    /\ groups <> [].
Proof.
  apply compute_groups_fixed_returns.
  - discriminate.
  - reflexivity.
  - discriminate.
Defined.

(** Without a boundary [compute_groups_fixed] raises [IndexError], and for
    an observation without bins it raises [ValueError]. *)
Theorem compute_groups_fixed_raises (obs : SpectrumObservation) (ebounds : list Quantity) :
  (lower_bounds (e_reco obs) = [] ->
     exists msg, compute_groups_fixed obs ebounds = Raise (ValueError msg))
  /\ (lower_bounds (e_reco obs) <> [] -> ebounds = [] ->
      exists msg, compute_groups_fixed obs ebounds = Raise (IndexError msg)).
Proof.
  split.
  - intros E. unfold compute_groups_fixed. cbv zeta. rewrite E.
    eexists. reflexivity.
  - intros Hbins ->. apply compute_groups_fixed_no_boundary. exact Hbins.
Qed.

Lemma compute_groups_fixed_raises_witness :
  (exists msg, compute_groups_fixed (mkSpectrumObservation (mkEnergyBounds [] []))
                 [1 * TeV; 2 * TeV] = Raise (ValueError msg))
  /\ (exists msg, compute_groups_fixed obs_1_10 [] = Raise (IndexError msg)).
Proof.
  split.
  - apply (proj1 (compute_groups_fixed_raises _ _)). reflexivity.
  - apply (proj2 (compute_groups_fixed_raises obs_1_10 [])); [discriminate | reflexivity].
Defined.

Lemma arange_app (m : nat) :
  forall a b, a + Z.of_nat m <= b ->
    np.arange a (a + Z.of_nat m) ++ np.arange (a + Z.of_nat m) b = np.arange a b.
Proof.
  induction m as [| m IH]; intros a b H.
  - replace (a + Z.of_nat 0) with a by lia. unfold np.arange at 1.
    rewrite Z.sub_diag. reflexivity.
  - rewrite (arange_cons a (a + Z.of_nat (S m))) by lia.
    rewrite (arange_cons a b) by lia. rewrite <- app_comm_cons. f_equal.
    replace (a + Z.of_nat (S m)) with (a + 1 + Z.of_nat m) by lia.
    apply IH. lia.
Qed.

(** Chained groups none of which has [bin_idx_max] below [bin_idx_min]
    hold every bin index from [a] to [b - 1] once, in order. *)
Lemma chained_partition (gs : SpectrumEnergyGroups) :
  forall a k b,
    chained a k gs b ->
    Forall (fun g => bin_idx_min g <= bin_idx_max g) gs ->
    a <= b /\ List.concat (map bin_idx_array gs) = np.arange a b.
Proof.
  induction gs as [| g gs IH]; intros a k b Hc Hr.
  - simpl in Hc. subst b. split; [lia|]. unfold np.arange.
    rewrite Z.sub_diag. reflexivity.
  - destruct Hc as [Hmin [_ Hc]]. inversion Hr as [| ? ? Hg Hr']; subst.
    destruct (IH _ _ _ Hc Hr') as [Hle Hrest]. split; [lia|].
    cbn [map List.concat]. rewrite Hrest. unfold bin_idx_array.
    replace (bin_idx_max g + 1)
      with (bin_idx_min g + Z.of_nat (Z.to_nat (bin_idx_max g + 1 - bin_idx_min g))) by lia.
    apply arange_app. lia.
Qed.

Lemma chained_ends (gs : SpectrumEnergyGroups) :
  forall g0 a k b, chained a k (g0 :: gs) b -> bin_idx_max (last gs g0) + 1 = b.
Proof.
  induction gs as [| g1 gs IH]; intros g0 a k b Ht.
  - destruct Ht as [_ [_ Ht]]. simpl in *. exact Ht.
  - destruct Ht as [_ [_ Ht]].
    replace (last (g1 :: gs) g0) with (last gs g1) by (symmetry; apply last_cons).
    apply (IH g1 _ _ _ Ht).
Qed.

(** The groups of [compute_groups_fixed] are numbered 0, 1, 2, ... in
    order and are chained by their bin indices: the first group has
    [bin_idx_min] 0, every next group has [bin_idx_min] equal to
    [bin_idx_max + 1] of the group before it, and the last group has
    [bin_idx_max] equal to [nbins - 1].  When no group has [bin_idx_max]
    below [bin_idx_min], the bin index arrays of the groups, one after the
    other, are the bin indices 0, ..., [nbins - 1]: every bin is in exactly
    one group.  Boundaries that are not located in ascending order give
    groups with [bin_idx_max] below [bin_idx_min] and groups that share
    bins. *)
Theorem compute_groups_fixed_chained (obs : SpectrumObservation) (ebounds : list Quantity)
    (groups : SpectrumEnergyGroups) :
  lower_bounds (e_reco obs) <> [] ->
  List.length (upper_bounds (e_reco obs)) = List.length (lower_bounds (e_reco obs)) ->
  compute_groups_fixed obs ebounds = Ok groups ->
  map energy_group_idx groups = np.arange 0 (Z.of_nat (List.length groups))
  /\ chained 0 0 groups (nbins (e_reco obs))
  /\ (forall first rest, groups = first :: rest ->
        bin_idx_min first = 0
        /\ bin_idx_max (last rest first) = nbins (e_reco obs) - 1)
  /\ (Forall (fun g => bin_idx_min g <= bin_idx_max g) groups ->
      List.concat (map bin_idx_array groups) = np.arange 0 (nbins (e_reco obs))).
Proof.
  intros Hbins Hupper Hrun.
  destruct (compute_groups_fixed_Ok obs ebounds groups Hbins Hupper Hrun)
    as [under [normals [over [_ [Ht _]]]]].
  split; [apply (chained_idx _ _ _ _ Ht)|]. split; [exact Ht|]. split.
  - intros first rest ->. split; [apply Ht|].
    pose proof (chained_ends _ _ _ _ _ Ht). lia.
  - intros Hr. apply (chained_partition _ _ _ _ Ht Hr).
Qed.

Lemma compute_groups_fixed_chained_witness :
  exists groups,
    compute_groups_fixed obs_1_10 [1250000 * MeV; 4500000 * MeV; 6500000 * MeV] = Ok groups
    /\ map energy_group_idx groups = [0; 1; 2; 3]
    /\ List.concat (map bin_idx_array groups) = [0; 1; 2; 3; 4; 5; 6; 7; 8].
Proof.
  eexists. split; [reflexivity|].
  destruct (compute_groups_fixed_chained obs_1_10
              [1250000 * MeV; 4500000 * MeV; 6500000 * MeV] _
              ltac:(discriminate) eq_refl eq_refl) as [Hidx [_ [_ Hpart]]].
  split; [exact Hidx|].
  apply Hpart. repeat constructor; simpl; lia.
Defined.

(** Boundaries that are not ascending: the groups are chained, the second
    one has [bin_idx_max] below [bin_idx_min], and the first and the third
    one share the bins 0 to 4. *)
Example compute_groups_fixed_not_ascending :
  compute_groups_fixed obs_1_10 [6 * TeV; 100 * TeV; 7 * TeV]
  = Ok [ mkSpectrumEnergyGroup 0 0 4 "underflow" (1 * TeV) (6 * TeV);
         mkSpectrumEnergyGroup 1 5 (-1) "normal" (6 * TeV) (10 * TeV);
         mkSpectrumEnergyGroup 2 0 5 "normal" (1 * TeV) (7 * TeV);
         mkSpectrumEnergyGroup 3 6 8 "overflow" (7 * TeV) (10 * TeV) ].
Proof. vm_compute. reflexivity. Qed.

(** The energies of every group of [compute_groups_fixed] are bin edges of
    the observation: [energy_min] is the lower edge of bin [bin_idx_min] and
    [energy_max] is the upper edge of bin [bin_idx_max], both read with the
    index rule of arrays. *)
Theorem compute_groups_fixed_edges (obs : SpectrumObservation) (ebounds : list Quantity)
    (groups : SpectrumEnergyGroups) :
  lower_bounds (e_reco obs) <> [] ->
  List.length (upper_bounds (e_reco obs)) = List.length (lower_bounds (e_reco obs)) ->
  compute_groups_fixed obs ebounds = Ok groups ->
  forall g, In g groups ->
    np.getitem (lower_bounds (e_reco obs)) (bin_idx_min g) = Ok (energy_min g)
    /\ np.getitem (upper_bounds (e_reco obs)) (bin_idx_max g) = Ok (energy_max g).
Proof.
  intros Hbins Hupper Hrun g Hg.
  destruct (compute_groups_fixed_Ok obs ebounds groups Hbins Hupper Hrun)
    as [under [normals [over [_ [_ [He _]]]]]].
  rewrite Forall_forall in He. apply (He g Hg).
Qed.

Lemma compute_groups_fixed_edges_witness :
  np.getitem (lower_bounds (e_reco obs_1_10)) 5 = Ok (6 * TeV)
  /\ np.getitem (upper_bounds (e_reco obs_1_10)) 8 = Ok (10 * TeV).
Proof.
  apply (compute_groups_fixed_edges obs_1_10 [-1 * TeV; 6 * TeV; 100 * TeV]
           [ mkSpectrumEnergyGroup 0 0 4 "normal" (1 * TeV) (6 * TeV);
             mkSpectrumEnergyGroup 1 5 8 "normal" (6 * TeV) (10 * TeV) ]
           ltac:(discriminate) eq_refl eq_refl
           (mkSpectrumEnergyGroup 1 5 8 "normal" (6 * TeV) (10 * TeV))).
  simpl. auto.
Defined.

(** The groups of [compute_groups_fixed] are, in this order, at most one
    group of type "underflow", then one group of type "normal" for every
    boundary but the last, then at most one group of type "overflow". *)
Theorem compute_groups_fixed_bin_types (obs : SpectrumObservation) (ebounds : list Quantity)
    (groups : SpectrumEnergyGroups) :
  lower_bounds (e_reco obs) <> [] ->
  List.length (upper_bounds (e_reco obs)) = List.length (lower_bounds (e_reco obs)) ->
  compute_groups_fixed obs ebounds = Ok groups ->
  exists under normals over,
    groups = under ++ normals ++ over
    /\ (under = [] \/ exists g, under = [g] /\ bin_type g = "underflow")
    /\ S (List.length normals) = List.length ebounds
    /\ Forall (fun g => bin_type g = "normal") normals
    /\ (over = [] \/ exists g, over = [g] /\ bin_type g = "overflow").
Proof.
  intros Hbins Hupper Hrun.
  destruct (compute_groups_fixed_Ok obs ebounds groups Hbins Hupper Hrun)
    as [under [normals [over [Hg [_ [_ [Hn [Hnt [Hu [Ho _]]]]]]]]]].
  exists under, normals, over. auto.
Qed.

Lemma compute_groups_fixed_bin_types_witness :
  exists under normals over,
    [ mkSpectrumEnergyGroup 0 0 4 "normal" (1 * TeV) (6 * TeV);
      mkSpectrumEnergyGroup 1 5 8 "normal" (6 * TeV) (10 * TeV) ]
    = under ++ normals ++ over
    /\ (under = [] \/ exists g, under = [g] /\ bin_type g = "underflow")
    /\ S (List.length normals) = 3%nat
    /\ Forall (fun g => bin_type g = "normal") normals
    /\ (over = [] \/ exists g, over = [g] /\ bin_type g = "overflow").
Proof.
  apply (compute_groups_fixed_bin_types obs_1_10 [-1 * TeV; 6 * TeV; 100 * TeV]).
  - discriminate.
  - reflexivity.
  - reflexivity.
Defined.




(** Normal group [j] of [compute_groups_fixed] starts at the bin that
    boundary [j] is located at and ends one bin before the bin that boundary
    [j + 1] is located at, where the last boundary counts as located behind
    the last bin when it is located at bin 0.  A boundary is located at the
    first bin whose lower edge lies above the boundary minus 1 MeV (see
    [located] for the cases without such a bin). *)
Theorem compute_groups_fixed_located (obs : SpectrumObservation) (ebounds : list Quantity)
    (groups : SpectrumEnergyGroups) :
  lower_bounds (e_reco obs) <> [] ->
  List.length (upper_bounds (e_reco obs)) = List.length (lower_bounds (e_reco obs)) ->
  compute_groups_fixed obs ebounds = Ok groups ->
  exists under normals over,
    groups = under ++ normals ++ over
    /\ Forall (fun g => bin_type g = "underflow") under
    /\ Forall (fun g => bin_type g = "normal") normals
    /\ Forall (fun g => bin_type g = "overflow") over
    /\ forall j g, nth_error normals j = Some g ->
         exists e e',
           nth_error ebounds j = Some e /\ nth_error ebounds (S j) = Some e'
           /\ bin_idx_min g = located (lower_bounds (e_reco obs)) e
           /\ bin_idx_max g + 1
              = if Nat.eqb (S (S j)) (List.length ebounds)
                   && (located (lower_bounds (e_reco obs)) e' =? 0)
                then nbins (e_reco obs)
                else located (lower_bounds (e_reco obs)) e'.
Proof.
  intros Hbins Hupper Hrun.
  destruct (compute_groups_fixed_Ok obs ebounds groups Hbins Hupper Hrun)
    as [under [normals [over [Hg [_ [_ [_ [Hnt [Hu [Ho Hw]]]]]]]]]].
  exists under, normals, over. split; [exact Hg|]. split; [|split; [exact Hnt | split]].
  - destruct Hu as [-> | [g [-> Hgt]]]; repeat constructor. exact Hgt.
  - destruct Ho as [-> | [g [-> Hgt]]]; repeat constructor. exact Hgt.
  - exact Hw.
Qed.

Lemma compute_groups_fixed_located_witness :
  located (lower_bounds (e_reco obs_1_10)) (1250000 * MeV) = 1
  /\ located (lower_bounds (e_reco obs_1_10)) (4500000 * MeV) = 4
  /\ located (lower_bounds (e_reco obs_1_10)) (100 * TeV) = 0
  /\ exists under normals over,
       [ mkSpectrumEnergyGroup 0 0 4 "normal" (1 * TeV) (6 * TeV);
         mkSpectrumEnergyGroup 1 5 8 "normal" (6 * TeV) (10 * TeV) ]
       = under ++ normals ++ over
       /\ Forall (fun g => bin_type g = "underflow") under
       /\ Forall (fun g => bin_type g = "normal") normals
       /\ Forall (fun g => bin_type g = "overflow") over
       /\ forall j g, nth_error normals j = Some g ->
            exists e e',
              nth_error [-1 * TeV; 6 * TeV; 100 * TeV] j = Some e
              /\ nth_error [-1 * TeV; 6 * TeV; 100 * TeV] (S j) = Some e'
              /\ bin_idx_min g = located (lower_bounds (e_reco obs_1_10)) e
              /\ bin_idx_max g + 1
                 = if Nat.eqb (S (S j)) 3
                      && (located (lower_bounds (e_reco obs_1_10)) e' =? 0)
                   then 9
                   else located (lower_bounds (e_reco obs_1_10)) e'.
Proof.
  split; [reflexivity|]. split; [reflexivity|]. split; [reflexivity|].
  apply (compute_groups_fixed_located obs_1_10 [-1 * TeV; 6 * TeV; 100 * TeV]).
  - discriminate.
  - reflexivity.
  - reflexivity.
Defined.

(** ** groups_from_obs with the other operations *)

Lemma groups_from_obs_eq (obs : SpectrumObservation) :
  List.length (lower_bounds (e_reco obs)) = List.length (upper_bounds (e_reco obs)) ->
  groups_from_obs obs
  = Ok (one_per_bin 0 (lower_bounds (e_reco obs)) (upper_bounds (e_reco obs))).
Proof.
  intros Hlen. unfold groups_from_obs, nbins. cbv zeta. rewrite Nat2Z.id.
  pose proof (one_per_bin_table _ _ 0 Hlen) as Ht. rewrite Z.add_0_l in Ht.
  rewrite Ht. cbn [bind].
  apply from_total_table_concat.
  - apply one_per_bin_ascending.
  - apply Forall_forall. intros g Hg. apply one_per_bin_idx in Hg.
    unfold valid_bin_type. destruct Hg as [_ [-> _]]. simpl. auto.
  - apply Forall_forall. intros g Hg. apply one_per_bin_idx in Hg. lia.
Qed.

Lemma one_per_bin_nth_inv (los : list Quantity) :
  forall (his : list Quantity) (k : Z) (i : nat) (g : SpectrumEnergyGroup),
    nth_error (one_per_bin k los his) i = Some g ->
    nth_error los i = Some (energy_min g) /\ nth_error his i = Some (energy_max g).
Proof.
  induction los as [| lo los IH]; intros [| hi his] k i g H; simpl in H;
    try (destruct i; discriminate H).
  destruct i as [| i]; simpl in H.
  - inversion H. subst g. simpl. auto.
  - simpl. apply (IH his (k + 1) i g H).
Qed.

(** On the groups of [groups_from_obs], [find_list_idx] returns the
    position of the first bin of the observation whose lower edge is at or
    below the energy and whose upper edge is above it. *)
Theorem groups_from_obs_find_bin (obs : SpectrumObservation)
    (groups : SpectrumEnergyGroups) (e : Quantity) (i : nat) :
  List.length (lower_bounds (e_reco obs)) = List.length (upper_bounds (e_reco obs)) ->
  groups_from_obs obs = Ok groups ->
  find_list_idx groups e = Ok i <->
  (exists lo hi,
     nth_error (lower_bounds (e_reco obs)) i = Some lo
     /\ nth_error (upper_bounds (e_reco obs)) i = Some hi
     /\ lo <= e < hi)
  /\ (forall j lo hi, (j < i)%nat ->
        nth_error (lower_bounds (e_reco obs)) j = Some lo ->
        nth_error (upper_bounds (e_reco obs)) j = Some hi ->
        ~ lo <= e < hi).
Proof.
  intros Hlen Hg. rewrite (groups_from_obs_eq obs Hlen) in Hg.
  inversion Hg. subst groups. clear Hg.
  set (los := lower_bounds (e_reco obs)) in *.
  set (his := upper_bounds (e_reco obs)) in *.
  assert (forall g, contains_energy g e = true <-> energy_min g <= e < energy_max g) as Hc.
  { intros g. unfold contains_energy. rewrite andb_true_iff, Z.leb_le, Z.ltb_lt. tauto. }
  unfold find_list_idx. rewrite find_from_Ok. split.
  - intros [j [g [Hij [Hn [Hg Hbefore]]]]]. simpl in Hij. subst j.
    destruct (one_per_bin_nth_inv los his 0 i g Hn) as [Hlo Hhi].
    split.
    + exists (energy_min g), (energy_max g). split; [exact Hlo|]. split; [exact Hhi|].
      apply Hc. exact Hg.
    + intros j lo hi Hj Hlo' Hhi' Hin.
      assert (j < List.length los)%nat as Hjl by (apply nth_error_Some; congruence).
      destruct (one_per_bin_nth los his 0 j Hlen Hjl) as [lo'' [hi'' [H1 [H2 H3]]]].
      assert (lo'' = lo) as -> by congruence. assert (hi'' = hi) as -> by congruence.
      specialize (Hbefore j _ Hj H3).
      assert (contains_energy
                (mkSpectrumEnergyGroup (0 + Z.of_nat j) (0 + Z.of_nat j) (0 + Z.of_nat j)
                   "normal" lo hi) e = true) as Ht by (apply Hc; simpl; exact Hin).
      congruence.
  - intros [[lo [hi [Hlo [Hhi Hin]]]] Hbefore].
    assert (i < List.length los)%nat as Hil by (apply nth_error_Some; congruence).
    destruct (one_per_bin_nth los his 0 i Hlen Hil) as [lo' [hi' [H1 [H2 H3]]]].
    assert (lo' = lo) as -> by congruence. assert (hi' = hi) as -> by congruence.
    eexists i, _. split; [reflexivity|]. split; [exact H3|]. split.
    + apply Hc. simpl. exact Hin.
    + intros j g' Hj Hn'.
      destruct (one_per_bin_nth_inv los his 0 j g' Hn') as [Hlo' Hhi'].
      apply not_true_is_false. intros Ht. apply Hc in Ht.
      exact (Hbefore j _ _ Hj Hlo' Hhi' Ht).
Qed.

Lemma groups_from_obs_find_bin_witness :
  exists groups,
    groups_from_obs obs_1_10 = Ok groups
    /\ find_list_idx groups (4500000 * MeV) = Ok 3%nat.
Proof.
  eexists. split; [reflexivity|].
  apply (groups_from_obs_find_bin obs_1_10 _ (4500000 * MeV) 3 eq_refl eq_refl).
  split.
  - exists (4 * TeV), (5 * TeV). split; [reflexivity|]. split; [reflexivity|].
    unfold MeV, TeV. lia.
  - intros j lo hi Hj Hlo Hhi.
    destruct j as [| [| [| j]]]; try lia; vm_compute in Hlo, Hhi;
      inversion Hlo; inversion Hhi; subst; unfold MeV; lia.
Defined.

(** The groups of [groups_from_obs] pass unchanged through the group table
    and, when the observation has at least one bin, through the table with
    one bin per row. *)
Theorem groups_from_obs_round_trip (obs : SpectrumObservation)
    (groups : SpectrumEnergyGroups) :
  List.length (lower_bounds (e_reco obs)) = List.length (upper_bounds (e_reco obs)) ->
  groups_from_obs obs = Ok groups ->
  from_group_table (to_group_table groups) = Ok groups
  /\ (lower_bounds (e_reco obs) <> [] ->
      exists table,
        to_total_table groups = Ok table /\ from_total_table table = Ok groups).
Proof.
  intros Hlen Hg. rewrite (groups_from_obs_eq obs Hlen) in Hg.
  inversion Hg. subst groups. clear Hg.
  assert (Forall valid_bin_type
            (one_per_bin 0 (lower_bounds (e_reco obs)) (upper_bounds (e_reco obs)))) as Hv.
  { apply Forall_forall. intros g Hin. apply one_per_bin_idx in Hin.
    unfold valid_bin_type. destruct Hin as [_ [-> _]]. simpl. auto. }
  split; [apply from_group_table_to_group_table; exact Hv|].
  intros Hne. exists (List.concat (map bin_table
    (one_per_bin 0 (lower_bounds (e_reco obs)) (upper_bounds (e_reco obs))))).
  split.
  - unfold to_total_table, table_vstack.
    destruct (lower_bounds (e_reco obs)) as [| lo los]; [contradiction|].
    destruct (upper_bounds (e_reco obs)) as [| hi his]; [discriminate Hlen|].
    reflexivity.
  - apply from_total_table_concat.
    + apply one_per_bin_ascending.
    + exact Hv.
    + apply Forall_forall. intros g Hin. apply one_per_bin_idx in Hin. lia.
Qed.

Lemma groups_from_obs_round_trip_witness :
  exists groups,
    groups_from_obs obs_1_10 = Ok groups
    /\ from_group_table (to_group_table groups) = Ok groups
    /\ exists table,
         to_total_table groups = Ok table /\ from_total_table table = Ok groups.
Proof.
  eexists. split; [reflexivity|].
  destruct (groups_from_obs_round_trip obs_1_10 _ eq_refl eq_refl) as [H1 H2].
  split; [exact H1|]. apply H2. discriminate.
Defined.

(** ** Fixed groups over bins that follow one another *)

Lemma chained_contiguous (eb : EnergyBounds) (gs : SpectrumEnergyGroups) :
  contiguous_bins eb ->
  forall a k b,
    chained a k gs b -> 0 <= a ->
    Forall (fun g => bin_idx_min g <= bin_idx_max g) gs ->
    Forall (edges_of_bins eb) gs ->
    contiguous_energy gs.
Proof.
  intros Hcb. induction gs as [| g1 gs IH]; intros a k b Ht Ha Hr He; [exact I|].
  destruct Ht as [Hmin [_ Ht]].
  inversion Hr as [| ? ? Hr1 Hr']; subst. inversion He as [| ? ? He1 He']; subst.
  split.
  - destruct gs as [| g2 gs]; [exact I|].
    destruct Ht as [Hmin2 _]. inversion He' as [| ? ? He2 _]; subst.
    destruct He1 as [_ Hup]. destruct He2 as [Hlo _].
    apply getitem_nth in Hup; [|lia]. apply getitem_nth in Hlo; [|lia].
    rewrite Hmin2 in Hlo.
    replace (Z.to_nat (bin_idx_max g1 + 1)) with (S (Z.to_nat (bin_idx_max g1))) in Hlo by lia.
    apply (Hcb _ _ _ Hup Hlo).
  - apply (IH (bin_idx_max g1 + 1) (k + 1) b Ht); [lia | exact Hr' | exact He'].
Qed.

(** Over an observation whose bins follow one another, fixed groups without
    an empty bin range follow one another in energy, and [find_list_idx]
    finds one of them for every energy from the lowest bin edge up to, and
    not including, the highest bin edge of the observation. *)
Theorem compute_groups_fixed_covers (obs : SpectrumObservation) (ebounds : list Quantity)
    (groups : SpectrumEnergyGroups) (e : Quantity) :
  lower_bounds (e_reco obs) <> [] ->
  List.length (upper_bounds (e_reco obs)) = List.length (lower_bounds (e_reco obs)) ->
  contiguous_bins (e_reco obs) ->
  compute_groups_fixed obs ebounds = Ok groups ->
  Forall (fun g => bin_idx_min g <= bin_idx_max g) groups ->
  contiguous_energy groups
  /\ forall lowest highest,
       np.getitem (lower_bounds (e_reco obs)) 0 = Ok lowest ->
       np.getitem (upper_bounds (e_reco obs)) (-1) = Ok highest ->
       lowest <= e < highest ->
       exists i g, find_list_idx groups e = Ok i
         /\ nth_error groups i = Some g
         /\ contains_energy g e = true.
Proof.
  intros Hbins Hupper Hcb Hrun Hr.
  destruct (compute_groups_fixed_Ok obs ebounds groups Hbins Hupper Hrun)
    as [under [normals [over [_ [Ht [He _]]]]]].
  pose proof (chained_contiguous _ _ Hcb _ _ _ Ht ltac:(lia) Hr He) as Hc.
  split; [exact Hc|].
  intros lowest highest Hlo Hhi Hin.
  destruct groups as [| g0 rest].
  { simpl in Ht. pose proof (nbins_pos _ Hbins). lia. }
  assert (energy_min g0 = lowest) as Hfirst.
  { inversion He as [| ? ? [He0 _] _]; subst.
    destruct Ht as [Hmin _]. rewrite Hmin in He0. congruence. }
  assert (energy_max (last rest g0) = highest) as Hlast.
  { pose proof (chained_ends _ _ _ _ _ Ht) as Hmax.
    assert (In (last rest g0) (g0 :: rest)) as Hl.
    { rewrite <- (last_cons rest g0 g0).
      rewrite (app_removelast_last g0 (l := g0 :: rest)) at 2 by discriminate.
      apply in_or_app. right. left. reflexivity. }
    rewrite Forall_forall in He. destruct (He _ Hl) as [_ Hup].
    rewrite getitem_neg1, Hupper in Hhi. fold (nbins (e_reco obs)) in Hhi.
    replace (bin_idx_max (last rest g0)) with (nbins (e_reco obs) - 1) in Hup by lia.
    congruence. }
  destruct (contiguous_covers rest e g0 Hc ltac:(lia)) as [g [Hg Hcont]].
  unfold find_list_idx.
  destruct (find_from_cases (g0 :: rest) e 0) as [[i Hi] | Hraise].
  - pose proof Hi as Hi'. apply find_from_Ok in Hi'.
    destruct Hi' as [j [g' [Hij [Hn [Hg' _]]]]]. simpl in Hij. subst j.
    exists i, g'. auto.
  - exfalso. rewrite find_from_Raise in Hraise.
    rewrite (Hraise g Hg) in Hcont. discriminate.
Qed.

Lemma obs_1_10_contiguous : contiguous_bins (e_reco obs_1_10).
Proof.
  intros i lo hi Hhi Hlo.
  do 9 (destruct i as [| i];
        [vm_compute in Hhi, Hlo; try discriminate Hlo; congruence|]).
  vm_compute in Hhi. destruct i; discriminate Hhi.
Qed.

Lemma compute_groups_fixed_covers_witness :
  exists groups i g,
    compute_groups_fixed obs_1_10 [1250000 * MeV; 4500000 * MeV; 6500000 * MeV] = Ok groups
    /\ contiguous_energy groups
    /\ find_list_idx groups (5500000 * MeV) = Ok i
    /\ nth_error groups i = Some g
    /\ contains_energy g (5500000 * MeV) = true.
Proof.
  destruct (compute_groups_fixed_covers obs_1_10
              [1250000 * MeV; 4500000 * MeV; 6500000 * MeV] _ (5500000 * MeV)
              ltac:(discriminate) eq_refl obs_1_10_contiguous eq_refl) as [Hc Hfind].
  - repeat constructor; simpl; lia.
  - destruct (Hfind (1 * TeV) (10 * TeV) eq_refl eq_refl) as [i [g [Hi [Hn Hg]]]].
    + unfold MeV, TeV. lia.
    + eexists. exists i, g. split; [reflexivity|]. auto.
Defined.
